(** * surveyor-api: the step submission pipeline of [index.js]

    A shallow embedding of the Express application in [src/index.js]:
    the credential middleware ([checkOrCreateToken], [checkToken]), the
    [POST /items/:uuid] handler with its validation rules, the [locations]
    table with the [INSERT ... ON CONFLICT] statement the handler runs, the
    [locationsQuery] behind [GET /locations], and the WebSocket broadcast.

    JavaScript values travel as [JSON] documents, [undefined] is [None].
    The [locations] table is a finite map from its primary key
    [(uuid, session, step)] to the remaining columns. *)

From Stdlib Require Import QArith Ascii String.
From stdpp Require Import gmap strings list fin_maps sorting pretty.

Set Warnings "-register-all".
Open Scope Z_scope.
Open Scope string_scope.

(** ** JavaScript values *)

(** A parsed JSON document.  Numbers carry their exact value; an object is
    the list of its own members in insertion order, each key once (as
    [JSON.parse] leaves them). *)
Inductive JSON : Type :=
| JNull
| JBool (b : bool)
| JNum (q : Q)
| JStr (s : string)
| JArr (xs : list JSON)
| JObj (kvs : list (string * JSON)).

(** A JavaScript value: [None] is [undefined]. *)
Abbreviation Value := (option JSON).

Fixpoint assoc (k : string) (kvs : list (string * JSON)) : Value :=
  match kvs with
  | [] => None
  | (k', v) :: kvs => if String.eqb k k' then Some v else assoc k kvs
  end.

(** [!v], negated: the value is truthy.  [undefined], [null], [false],
    [0] and the empty string are falsy; every object and array is truthy. *)
Definition truthy (v : Value) : bool :=
  match v with
  | None | Some JNull => false
  | Some (JBool b) => b
  | Some (JNum q) => negb (Qeq_bool q 0)
  | Some (JStr s) => negb (String.eqb s "")
  | Some (JArr _) | Some (JObj _) => true
  end.

(** ** The [locations] table *)

Module Pg.

(** The columns of [createTable] outside the primary key
    [(uuid, session, step)].  Timestamps are points on a clock; the [json]
    and [jsonb] columns hold the document whose text was bound; [centroid]
    holds the text bound to the [point] column. *)
Record columns : Type := mkColumns {
  step_index : Z;
  completed : bool;
  image_id : option string;
  date_created : Z;
  date_modified : Z;
  data : option JSON;
  client : option JSON;
  geometry : option JSON;
  centroid : option string
}.

(** [CONSTRAINT locations_pkey PRIMARY KEY (uuid, session, step)] *)
Definition pkey : Type := string * string * string.

Abbreviation table := (gmap pkey columns).

(** The row an [INSERT] proposes, [EXCLUDED] in the conflict action: the ten
    columns the statement lists.  [date_created] and [date_modified] are not
    listed and take their defaults. *)
Record excluded : Type := mkExcluded {
  x_uuid : string;
  x_session : string;
  x_step : string;
  x_step_index : Z;
  x_image_id : option string;
  x_completed : bool;
  x_data : option JSON;
  x_client : option JSON;
  x_geometry : option JSON;
  x_centroid : option string
}.

Definition x_pkey (x : excluded) : pkey := (x_uuid x, x_session x, x_step x).

(** Predicates a partial index or an [ON CONFLICT] target can carry. *)
Inductive predicate : Type :=
| NotCompleted.   (* WHERE NOT completed *)

Definition holds (p : predicate) (c : columns) : bool :=
  match p with NotCompleted => negb (completed c) end.

(** A unique index: its key columns and, for a partial index, its
    predicate. *)
Record unique_index : Type := mkIndex {
  index_name : string;
  index_columns : list string;
  index_where : option predicate
}.

(** [createTable] declares one unique index, the primary key; it is not
    partial. *)
Definition locations_pkey : unique_index :=
  {| index_name := "locations_pkey";
     index_columns := ["uuid"; "session"; "step"];
     index_where := None |}.

Definition locations_indexes : list unique_index := [locations_pkey].

(** The conflict clause of [query]:
<<
ON CONFLICT (uuid, session, step)
WHERE NOT completed
DO UPDATE SET ... WHERE EXCLUDED.completed
>>
    The [WHERE] that follows the column list belongs to the conflict target:
    it is the index predicate used to choose the arbiter index.  The [WHERE]
    that ends the statement guards the update. *)
Definition conflict_columns : list string := ["uuid"; "session"; "step"].
Definition conflict_where : option predicate := Some NotCompleted.
Definition update_where (x : excluded) : bool := x_completed x.

Definition same_columns (a b : list string) : bool :=
  forallb (fun c => existsb (String.eqb c) b) a
  && forallb (fun c => existsb (String.eqb c) a) b.

Definition predicate_eqb (p q : predicate) : bool :=
  match p, q with NotCompleted, NotCompleted => true end.

(** Arbiter inference: a unique index over exactly the target columns is
    chosen when its own predicate is implied by the target's.  An index
    without predicate is chosen whatever the target's predicate is
    (PostgreSQL, INSERT, [index_predicate]: any indexes that satisfy the
    predicate, which need not actually be partial indexes, can be
    inferred).  The target's predicate plays no other part: it is not
    evaluated on the stored rows. *)
Definition inferred (ix : unique_index) : bool :=
  same_columns conflict_columns (index_columns ix)
  && match index_where ix with
     | None => true
     | Some p =>
         match conflict_where with
         | Some q => predicate_eqb p q
         | None => false
         end
     end.

Definition arbiters : list unique_index := filter inferred locations_indexes.

(** A stored row is in an index when it satisfies the index's predicate. *)
Definition indexed (ix : unique_index) (c : columns) : bool :=
  match index_where ix with
  | None => true
  | Some p => holds p c
  end.

(** The row stored when nothing conflicts. *)
Definition inserted (now : Z) (x : excluded) : columns :=
  {| step_index := x_step_index x;
     completed := x_completed x;
     image_id := x_image_id x;
     date_created := now;
     date_modified := now;
     data := x_data x;
     client := x_client x;
     geometry := x_geometry x;
     centroid := x_centroid x |}.

(** [DO UPDATE SET step_index = EXCLUDED.step_index, completed = ...,
    date_modified = current_timestamp ..., data = ..., client = ...,
    geometry = ..., centroid = ...]: [image_id] and [date_created] keep
    their stored values. *)
Definition updated (now : Z) (x : excluded) (old : columns) : columns :=
  {| step_index := x_step_index x;
     completed := x_completed x;
     image_id := image_id old;
     date_created := date_created old;
     date_modified := now;
     data := x_data x;
     client := x_client x;
     geometry := x_geometry x;
     centroid := x_centroid x |}.

(** Running [query] at time [now]: the statement fails when no arbiter can
    be inferred or when the insert would break the primary key; otherwise it
    inserts, updates, or leaves the table as it is. *)
Definition commitStep (now : Z) (x : excluded) (db : table) : string + table :=
  match arbiters with
  | [] => inl "there is no unique or exclusion constraint matching the ON CONFLICT specification"
  | ix :: _ =>
      match db !! x_pkey x with
      | None => inr (<[x_pkey x := inserted now x]> db)
      | Some old =>
          if indexed ix old then
            if update_where x
            then inr (<[x_pkey x := updated now x old]> db)
            else inr db
          else inl "duplicate key value violates unique constraint"
      end
  end.

End Pg.

Import Pg.

(** ** [locationsQuery] *)

Module Query.

(** A row of the join: the columns of the subquery [s] and the row [l] of
    [locations] joined to it. *)
Record joined : Type := mkJoined {
  s_uuid : string;
  s_session : string;
  max_step : Z;
  l_key : pkey;
  l : columns
}.

Definition rows (db : table) : list (pkey * columns) := map_to_list db.

Definition in_group (g : string * string) (r : pkey * columns) : bool :=
  bool_decide (r.1.1 = g).

(** [MAX] over a group; a group of the subquery is never empty. *)
Definition MAX (zs : list Z) : option Z :=
  match zs with
  | [] => None
  | z :: zs => Some (foldr Z.max z zs)
  end.

(** [SELECT uuid, session, MAX(step_index) AS max_step FROM locations
     WHERE completed GROUP BY uuid, session] *)
Definition subquery (db : table) : list (string * string * Z) :=
  let done := filter (fun r => completed r.2 = true) (rows db) in
  omap (fun g => pair g <$> MAX (map (fun r => step_index r.2) (filter (fun r => in_group g r = true) done)))
       (remove_dups (map (fun r => r.1.1) done)).

(** [s JOIN locations l ON l.step_index = max_step AND s.uuid = l.uuid
     AND s.session = l.session] *)
Definition join (db : table) : list joined :=
  s ← subquery db;
  r ← filter (fun r => step_index r.2 = s.2 /\ r.1.1 = s.1) (rows db);
  [ {| s_uuid := s.1.1; s_session := s.1.2; max_step := s.2;
       l_key := r.1; l := r.2 |} ].

(** [ORDER BY date_modified DESC] *)
Definition newer_first (a b : joined) : Prop :=
  date_modified (l b) <= date_modified (l a).

#[global] Instance newer_first_dec a b : Decision (newer_first a b) :=
  Z_le_dec _ _.

Definition locationsQuery (db : table) : list joined :=
  merge_sort newer_first (join db).

End Query.

(** ** What the program takes from its platform

    The ECMAScript conversions between strings and numbers, and the
    packages [geojsonhint], [turf-centroid], [jsonwebtoken] and [pg] are not
    part of the repository: the program is modelled over any behaviour of
    theirs. *)
Class Platform : Type := {
  (** [Number(s)] for a string; [None] is [NaN].  The program only compares
      the result with 0: an infinite result stands as any number of its
      sign. *)
  StringToNumber : string -> option Q;
  (** [String(n)] for a number. *)
  NumberToString : Q -> string;
  (** The [message]s of the errors [geojsonhint.hint(feature)] reports. *)
  hint : JSON -> list string;
  (** [turf.centroid(geometry)]. *)
  turf_centroid : JSON -> Value;
  (** [jwt.sign(payload, key)]. *)
  jwt_sign : JSON -> string -> string;
  (** [jwt.verify(token, key, callback)]: the decoded payload, [None] when
      the callback receives an error. *)
  jwt_verify : string -> string -> option JSON;
  (** The text [pg] sends for a parameter that is not a string. *)
  pg_text : JSON -> string;
  (** A parameter bound to an [integer] column: the stored integer, or the
      server's error. *)
  pg_integer : JSON -> string + Z;
  (** [res.send(f)] for a function [f] that [items] inherits under the given
      name: the body sent, with status 200, or [None] when the call
      throws. *)
  send_function : string -> option JSON
}.

(** ** Responses and handlers *)

Inductive Response : Type :=
| Send (status : Z) (body : JSON)
| Uncaught (exception : string).

(** [res.status(status).send({result: 'error', message: message})] *)
Definition error (status : Z) (message : JSON) : Response :=
  Send status (JObj [("result", JStr "error"); ("message", message)]).

Definition status_of (r : Response) : option Z :=
  match r with Send s _ => Some s | Uncaught _ => None end.

(** A handler either has answered (and returned) or goes on with a value. *)
Definition Handler (A : Type) : Type := Response + A.

Definition bind {A B : Type} (m : Handler A) (k : A -> Handler B) : Handler B :=
  match m with
  | inl r => inl r
  | inr a => k a
  end.

Notation "x <- m ;; k" := (bind m (fun x => k))
  (at level 100, m at next level, right associativity).
Notation "'when' c 'answer' r ;; k" := (if c then inl r else k)
  (at level 100, c at next level, r at next level, right associativity).

(** [v.k]: reading a member of [undefined] or [null] throws; the members
    the program reads exist on objects only. *)
Definition member (k : string) (v : Value) : Handler Value :=
  match v with
  | None | Some JNull => inl (Uncaught "TypeError")
  | Some (JObj kvs) => inr (assoc k kvs)
  | Some _ => inr None
  end.

(** An object literal as [JSON.stringify] and [res.send] write it: members
    whose value is [undefined] are left out. *)
Definition object (members : list (string * Value)) : JSON :=
  JObj (omap (fun m => pair m.1 <$> m.2) members).

(** ** The row of [app.post('/items/:uuid')] *)

Module Row.
Record t : Type := mk {
  uuid : string;
  session : Value;
  step : Value;
  step_index : Value;
  image_id : Value;
  completed : bool;
  data : option JSON;       (* JSON.stringify(feature.properties.data) *)
  client : JSON;            (* JSON.stringify(client) *)
  geometry : option JSON;   (* JSON.stringify(feature.geometry) *)
  centroid : option string
}.
End Row.

Section Runtime.
Context {platform : Platform}.

(** [String(v)].  A parsed object has the methods of [Object.prototype],
    unless a member of its own hides them: with a member [toString] of its
    own, which is no function, the conversion finds nothing to call and
    throws (the inherited [valueOf] returns the object itself, and a member
    [valueOf] of its own is no function either). *)
Fixpoint ToString (v : JSON) : Handler string :=
  match v with
  | JNull => inr "null"
  | JBool true => inr "true"
  | JBool false => inr "false"
  | JNum q => inr (NumberToString q)
  | JStr s => inr s
  | JArr xs =>
      texts <- (fix each (xs : list JSON) : Handler (list string) :=
                  match xs with
                  | [] => inr []
                  | x :: xs =>
                      text <- match x with JNull => inr "" | _ => ToString x end ;;
                      texts <- each xs ;;
                      inr (text :: texts)
                  end) xs ;;
      inr (String.concat "," texts)
  | JObj kvs =>
      match assoc "toString" kvs with
      | Some _ => inl (Uncaught "TypeError")
      | None => inr "[object Object]"
      end
  end.

(** The texts of the elements, as [join] writes them. *)
Fixpoint element_texts (xs : list JSON) : Handler (list string) :=
  match xs with
  | [] => inr []
  | x :: xs =>
      text <- match x with JNull => inr "" | _ => ToString x end ;;
      texts <- element_texts xs ;;
      inr (text :: texts)
  end.

(** [xs.join(sep)]; only arrays have [join]. *)
Definition join (sep : string) (v : Value) : Handler string :=
  match v with
  | Some (JArr xs) => texts <- element_texts xs ;; inr (String.concat sep texts)
  | _ => inl (Uncaught "TypeError")
  end.

(** [Number(v)]; [None] is [NaN].  An object or array is first converted to
    a string, which may throw. *)
Definition ToNumber (v : Value) : Handler (option Q) :=
  match v with
  | None => inr None
  | Some JNull => inr (Some 0%Q)
  | Some (JBool b) => inr (Some (if b then 1%Q else 0%Q))
  | Some (JNum q) => inr (Some q)
  | Some (JStr s) => inr (StringToNumber s)
  | Some (JArr _ as o) | Some (JObj _ as o) =>
      text <- ToString o ;; inr (StringToNumber text)
  end.

(** [v >= 0] *)
Definition ge0 (v : Value) : Handler bool :=
  n <- ToNumber v ;;
  inr (match n with
       | Some q => Qle_bool 0 q
       | None => false
       end).


(** ** Server state *)

(** [items], the [locations] table and [wss.clients].  [items] holds the
    entries the loader has set on the object, each of them a listed object;
    the object keeps the prototype it is created with. *)
Record Server : Type := mkServer {
  items : gmap string JSON;
  locations : Pg.table;
  clients : list nat
}.

(** What a request leaves behind: the answer, the table, and the messages
    handed to [client.send], socket by socket. *)
Record Outcome : Type := mkOutcome {
  response : Response;
  store : Pg.table;
  sent : list (nat * JSON)
}.

(** ** Credentials *)

(** [checkOrCreateToken]: the [Authorization] header set on the response;
    the middleware always calls [next()].  [randomString] is the string
    [randomString()] returns for this request. *)
Definition checkOrCreateToken (KEY : string) (authorization : option string)
    (randomString : string) : string :=
  match authorization with
  | Some token =>
      if truthy (Some (JStr token)) then token
      else jwt_sign (JObj [("session", JStr randomString)]) KEY
  | None => jwt_sign (JObj [("session", JStr randomString)]) KEY
  end.

(** [checkToken]: answers 401, or goes on with [req.session]. *)
Definition checkToken (KEY : string) (authorization : option string) : Handler Value :=
  match authorization with
  | Some token =>
      if truthy (Some (JStr token)) then
        match jwt_verify token KEY with
        | None => inl (error 401 (JStr "Not authorized"))
        | Some decoded => member "session" (Some decoded)
        end
      else inl (error 401 (JStr "Not authorized"))
  | None => inl (error 401 (JStr "Not authorized"))
  end.

(** The names [items], a plain object, inherits from [Object.prototype]:
    functions, and under [__proto__] the prototype itself. *)
Definition Object_prototype : list string :=
  [ "constructor"; "__defineGetter__"; "__defineSetter__"; "hasOwnProperty";
    "__lookupGetter__"; "__lookupSetter__"; "isPrototypeOf";
    "propertyIsEnumerable"; "toString"; "valueOf"; "__proto__";
    "toLocaleString" ].

(** [items[uuid]]: an entry of the catalog, or else a member [items]
    inherits.  An inherited member is shown as an object without members:
    it is truthy, and it has none of the members the program reads. *)
Definition item_at (items : gmap string JSON) (uuid : string) : Value :=
  match items !! uuid with
  | Some item => Some item
  | None =>
      if bool_decide (uuid ∈ Object_prototype) then Some (JObj []) else None
  end.

(** [uuid && items[uuid]] *)
Definition catalogued (items : gmap string JSON) (uuid : string) : bool :=
  truthy (Some (JStr uuid)) && truthy (item_at items uuid).

(** [sendItem].  For an inherited member, [res.send] writes
    [Object.prototype] as an empty object; what it does with a function is
    the platform's. *)
Definition sendItem (items : gmap string JSON) (uuid : option string) : Response :=
  match uuid with
  | Some id =>
      if catalogued items id
      then match items !! id with
           | Some item => Send 200 item
           | None =>
               if String.eqb id "__proto__" then Send 200 (JObj [])
               else match send_function id with
                    | Some body => Send 200 body
                    | None => Uncaught "TypeError"
                    end
           end
      else error 404 (JStr "Not found")
  | None => error 404 (JStr "Not found")
  end.

(** [app.get('/items/:uuid', checkOrCreateToken, ...)] and
    [app.get('/items/random', checkOrCreateToken, ...)], where [uuid] is the
    path parameter or the entry drawn from [uuids].  The result is the
    [Authorization] header of the response and the response. *)
Definition get_item (KEY : string) (srv : Server) (authorization : option string)
    (randomString : string) (uuid : option string) : string * Response :=
  (checkOrCreateToken KEY authorization randomString, sendItem (items srv) uuid).

(** ** Broadcast *)

(** [locationToFeature] *)
Definition locationToFeature (uuid : string) (image_id step : Value)
    (completed : bool) (data geometry : Value) : JSON :=
  object
    [ ("type", Some (JStr "Feature"));
      ("properties",
        Some (object
          [ ("uuid", Some (JStr uuid));
            ("imageId", image_id);
            ("step", step);
            ("completed", Some (JBool completed));
            ("url", Some (JStr ("http://digitalcollections.nypl.org/items/" ++ uuid)));
            ("data", data) ]));
      ("geometry", geometry) ].

(** [wss.broadcast]: one [client.send(data)] per connected client. *)
Definition broadcast (clients : list nat) (data : JSON) : list (nat * JSON) :=
  List.map (fun client => (client, data)) clients.

(** [emitEvent(Object.assign(row, {data: ..., geometry: ...}))]: the row
    with the submitted [data] and [geometry] put back in place of their
    texts. *)
Definition emitEvent (clients : list nat) (row : Row.t) (data geometry : Value)
    : list (nat * JSON) :=
  broadcast clients
    (locationToFeature (Row.uuid row) (Row.image_id row) (Row.step row)
       (Row.completed row) data geometry).

(** ** [executeQuery(query, R.values(row), ...)] *)

(** A parameter bound to a [text] column; [null] and [undefined] are sent
    as [NULL]. *)
Definition text_param (v : Value) : option string :=
  match v with
  | None | Some JNull => None
  | Some (JStr s) => Some s
  | Some v => Some (pg_text v)
  end.

(** The parameters become the proposed row, unless a [NOT NULL] column
    receives [NULL] or [step_index] is no integer. *)
Definition bind_values (row : Row.t) : string + Pg.excluded :=
  match text_param (Row.session row) with
  | None => inl "null value in column session violates not-null constraint"
  | Some session =>
      match text_param (Row.step row) with
      | None => inl "null value in column step violates not-null constraint"
      | Some step =>
          match Row.step_index row with
          | None | Some JNull =>
              inl "null value in column step_index violates not-null constraint"
          | Some v =>
              match pg_integer v with
              | inl message => inl message
              | inr step_index =>
                  inr {| Pg.x_uuid := Row.uuid row;
                         Pg.x_session := session;
                         Pg.x_step := step;
                         Pg.x_step_index := step_index;
                         Pg.x_image_id := text_param (Row.image_id row);
                         Pg.x_completed := Row.completed row;
                         Pg.x_data := Row.data row;
                         Pg.x_client := Some (Row.client row);
                         Pg.x_geometry := Row.geometry row;
                         Pg.x_centroid := Row.centroid row |}
              end
          end
      end
  end.

(** [fault] is an error the connection or the server reports for a reason
    the table model does not follow (no connection, for one); [now] is the
    server's [current_timestamp]. *)
Definition executeQuery (fault : option string) (now : Z) (row : Row.t)
    (db : Pg.table) : string + Pg.table :=
  match fault with
  | Some message => inl message
  | None =>
      match bind_values row with
      | inl message => inl message
      | inr x => Pg.commitStep now x db
      end
  end.

(** ** [app.post('/items/:uuid', checkToken, ...)] *)

(** The [completed]/[data] pairing: [row.completed] and [row.data]. *)
Definition pairing (completed data : Value) : Handler (bool * option JSON) :=
  if truthy completed then
    when negb (truthy data)
      answer error 406 (JStr "Completed steps should contain data") ;;
    inr (true, data)
  else
    when truthy data || truthy data
      answer error 406 (JStr "Only completed steps should contain data or geometry") ;;
    inr (false, None).

(** The message of the 406 for an invalid geometry. *)
Definition geojson_message (geojsonErrors : list string) : JSON :=
  match geojsonErrors with
  | [message] => JStr message
  | _ => JArr (JStr <$> geojsonErrors)
  end.

(** [row.geometry] and [row.centroid]. *)
Definition locate (feature : JSON) (geometry : Value)
    : Handler (option JSON * option string) :=
  if truthy geometry then
    let geojsonErrors := hint feature in
    when bool_decide (0 < length geojsonErrors)%nat
      answer error 406 (geojson_message geojsonErrors) ;;
    match geometry with
    | Some g =>
        let centroid := turf_centroid g in
        if truthy centroid then
          point <- member "geometry" centroid ;;
          coordinates <- member "coordinates" point ;;
          text <- join "," coordinates ;;
          inr (geometry, Some text)
        else inr (geometry, None)
    | None => inr (None, None)
    end
  else inr (None, None).

(** The handler up to the query: either an answer, or the row with the
    submitted [data] and [geometry]. *)
Definition build_row (items : gmap string JSON) (uuid : string)
    (session : Value) (feature : JSON) (ip : Value)
    : Handler (Row.t * Value * Value) :=
  when negb (catalogued items uuid)
    answer error 404 (JStr "Not found") ;;
  image_id <- member "imageID" (item_at items uuid) ;;
  properties <- member "properties" (Some feature) ;;
  step <- member "step" properties ;;
  stepIndex <- member "stepIndex" properties ;;
  passes <- (if truthy step then ge0 stepIndex else inr false) ;;
  when negb passes
    answer error 406 (JStr "Feature should contain step and stepIndex") ;;
  completed <- member "completed" properties ;;
  data <- member "data" properties ;;
  paired <- pairing completed data ;;
  geometry <- member "geometry" (Some feature) ;;
  located <- locate feature geometry ;;
  inr ({| Row.uuid := uuid;
          Row.session := session;
          Row.step := step;
          Row.step_index := stepIndex;
          Row.image_id := image_id;
          Row.completed := paired.1;
          Row.data := paired.2;
          Row.client := object [("ip", ip)];
          Row.geometry := located.1;
          Row.centroid := located.2 |},
       data, geometry).

(** The handler, for a request whose credential [checkToken] decoded to
    [session]. *)
Definition submit (srv : Server) (fault : option string) (now : Z)
    (uuid : string) (session : Value) (feature : JSON) (ip : Value) : Outcome :=
  match build_row (items srv) uuid session feature ip with
  | inl early =>
      {| response := early; store := locations srv; sent := [] |}
  | inr (row, data, geometry) =>
      match executeQuery fault now row (locations srv) with
      | inl message =>
          {| response := error 500 (JStr message);
             store := locations srv; sent := [] |}
      | inr db =>
          {| response := Send 200 (JObj [("result", JStr "success")]);
             store := db;
             sent := emitEvent (clients srv) row data geometry |}
      end
  end.

(** The route, on the [req.body] that [bodyParser.json()] has set:
    [checkToken], then the handler. *)
Definition post_item (KEY : string) (srv : Server) (fault : option string)
    (now : Z) (authorization : option string) (uuid : string) (feature : JSON)
    (ip : Value) : Outcome :=
  match checkToken KEY authorization with
  | inl early => {| response := early; store := locations srv; sent := [] |}
  | inr session => submit srv fault now uuid session feature ip
  end.

End Runtime.

(** ** [app.get('/locations')] and [app.get('/locations/latest')] *)

(** A column that may be [NULL] reaches the program as [null]. *)
Definition nullable (v : option JSON) : Value := Some (default JNull v).

(** [locationsToGeoJson] *)
Definition locationsToGeoJson (rows : list Query.joined) : JSON :=
  JObj [ ("type", JStr "FeatureCollection");
         ("features",
           JArr (List.map
                   (fun j =>
                      locationToFeature (Query.l_key j).1.1
                        (nullable (JStr <$> Pg.image_id (Query.l j)))
                        (Some (JStr (Query.l_key j).2))
                        (Pg.completed (Query.l j))
                        (nullable (Pg.data (Query.l j)))
                        (nullable (Pg.geometry (Query.l j))))
                   rows)) ].

(** [limit] is [None] for [/locations] and [Some 100] for
    [/locations/latest]. *)
Definition get_locations (fault : option string) (limit : option nat)
    (db : Pg.table) : Response :=
  match fault with
  | Some message => error 500 (JStr message)
  | None =>
      let rows := Query.locationsQuery db in
      Send 200 (locationsToGeoJson
                  (match limit with Some n => take n rows | None => rows end))
  end.

(** ** A reference platform

    One platform to run the program on.  Each function agrees with the
    package it stands for on the inputs named in its comment; the theorems
    that quantify over [Platform] do not depend on it. *)

Module Reference.

Definition is_digit (c : ascii) : bool :=
  bool_decide (48 <= nat_of_ascii c <= 57)%nat.

Fixpoint read_digits (s : string) (acc : Z) (n : nat) : Z * nat * string :=
  match s with
  | String c rest =>
      if is_digit c
      then read_digits rest (acc * 10 + Z.of_nat (nat_of_ascii c - 48)) (S n)
      else (acc, n, s)
  | EmptyString => (acc, n, s)
  end.

Definition unsigned (s : string) : option Q :=
  let '(i, n, rest) := read_digits s 0 0 in
  match n, rest with
  | O, _ => None
  | _, EmptyString => Some (inject_Z i)
  | _, String "." fraction =>
      let '(f, m, rest) := read_digits fraction 0 0 in
      match m, rest with
      | S _, EmptyString =>
          Some (Qred (inject_Z i + inject_Z f / inject_Z (10 ^ Z.of_nat m)))
      | _, _ => None
      end
  | _, _ => None
  end.

(** [Number(s)] on the empty string and on the literals [-?d+(.d+)?];
    [NaN] elsewhere. *)
Definition StringToNumber (s : string) : option Q :=
  match s with
  | EmptyString => Some 0%Q
  | String "-" rest => Qopp <$> unsigned rest
  | _ => unsigned s
  end.

Fixpoint fraction (fuel : nat) (r d : Z) : string :=
  match fuel with
  | O => ""
  | S fuel =>
      if (r =? 0)%Z then ""
      else pretty (r * 10 / d) ++ fraction fuel (r * 10 mod d) d
  end.

(** [String(n)] on the integers below [10^21] in magnitude, written in
    decimal; other numbers are written with up to twenty decimals. *)
Definition NumberToString (q : Q) : string :=
  let n := Qnum (Qred q) in
  let d := Z.pos (Qden (Qred q)) in
  if (d =? 1)%Z then pretty n
  else (if (n <? 0)%Z then "-" else "")
       ++ pretty (Z.abs n / d) ++ "." ++ fraction 20 (Z.abs n mod d) d.

Definition number (v : JSON) : option Q :=
  match v with JNum q => Some q | _ => None end.

Definition position (v : JSON) : option (list Q) :=
  match v with
  | JArr xs => if bool_decide (2 <= length xs)%nat then mapM number xs else None
  | _ => None
  end.

Definition positions (v : JSON) : option (list (list Q)) :=
  match v with
  | JArr ps => mapM position ps
  | _ => None
  end.

Definition rings (v : JSON) : option (list (list (list Q))) :=
  match v with
  | JArr rs => mapM positions rs
  | _ => None
  end.

Definition same_position (a b : list Q) : bool :=
  bool_decide (length a = length b)
  && forallb (fun ab => Qeq_bool ab.1 ab.2) (zip a b).

Definition closed (ring : list (list Q)) : bool :=
  bool_decide (4 <= length ring)%nat
  && match head ring, last ring with
     | Some a, Some b => same_position a b
     | _, _ => false
     end.

(** The vertices of a geometry, [None] when it is not a well-formed Point,
    LineString or Polygon. *)
Definition vertices (g : JSON) : option (list (list Q)) :=
  match g with
  | JObj kvs =>
      match assoc "type" kvs, assoc "coordinates" kvs with
      | Some (JStr "Point"), Some c => p ← position c; Some [p]
      | Some (JStr "LineString"), Some c =>
          ps ← positions c;
          if bool_decide (2 <= length ps)%nat then Some ps else None
      | Some (JStr "Polygon"), Some c =>
          rs ← rings c;
          if forallb closed rs then Some (concat rs) else None
      | _, _ => None
      end
  | _ => None
  end.

(** Modelled from the spec: GeometryValidator.validate, the package
    [geojsonhint] behind [geojsonhint.hint].  The feature must carry the
    type tag [Feature], and its geometry, unless [null], must be a Point, a
    LineString of two or more positions or a Polygon of closed rings, with
    positions of two or more numbers.  The result is empty exactly on the
    features that pass. *)
Definition hint (feature : JSON) : list string :=
  match feature with
  | JObj kvs =>
      match assoc "type" kvs with
      | Some (JStr "Feature") => []
      | _ => ["The type member is required and should be Feature"]
      end
      ++ match assoc "geometry" kvs with
         | None => ["geometry member required"]
         | Some JNull => []
         | Some g =>
             match vertices g with
             | Some _ => []
             | None => ["the geometry is not a valid GeoJSON geometry"]
             end
         end
  | _ => ["The root of a GeoJSON object must be an object"]
  end.

Definition mean (zs : list Q) : Q :=
  Qred (foldr Qplus 0%Q zs / inject_Z (Z.of_nat (length zs))).

(** Modelled from the spec: GeometryValidator.centroidOf, the package
    [turf-centroid] behind [turf.centroid].  The arithmetic centroid of the
    geometry's vertices, as a Point feature: for a Point the point itself,
    for a LineString or Polygon the mean of the vertex coordinates; nothing
    for an empty or unsupported geometry. *)
Definition turf_centroid (g : JSON) : Value :=
  match vertices g with
  | Some ((_ :: _) as ps) =>
      let x := mean (List.map (fun p => default 0%Q (p !! 0%nat)) ps) in
      let y := mean (List.map (fun p => default 0%Q (p !! 1%nat)) ps) in
      Some (JObj [ ("type", JStr "Feature");
                   ("properties", JObj []);
                   ("geometry", JObj [ ("type", JStr "Point");
                                        ("coordinates", JArr [JNum x; JNum y]) ]) ])
  | _ => None
  end.

(** A stand-in for [jsonwebtoken]: the token names the session and the key
    it was issued under. *)
Definition jwt_sign (payload : JSON) (key : string) : string :=
  match payload with
  | JObj kvs =>
      match assoc "session" kvs with
      | Some (JStr session) => key ++ ":" ++ session
      | _ => key ++ ":"
      end
  | _ => key ++ ":"
  end.

Definition jwt_verify (token key : string) : option JSON :=
  if String.prefix (key ++ ":") token
  then Some (JObj [("session",
               JStr (substring (String.length key + 1)
                       (String.length token - (String.length key + 1)) token))])
  else None.

(** [pg] on numbers and booleans. *)
Definition pg_text (v : JSON) : string :=
  match v with
  | JNum q => NumberToString q
  | JBool true => "true"
  | JBool false => "false"
  | JStr s => s
  | _ => "{}"
  end.

Definition int4 (q : Q) : string + Z :=
  if negb (Z.pos (Qden (Qred q)) =? 1)%Z
  then inl "invalid input syntax for integer"
  else if bool_decide (-2147483648 <= Qnum (Qred q) <= 2147483647)
       then inr (Qnum (Qred q))
       else inl "value out of range for type integer".

(** [pg] and the server on numbers and on strings that hold a decimal
    literal: an integer in range is stored, anything else is an error. *)
Definition pg_integer (v : JSON) : string + Z :=
  match v with
  | JNum q => int4 q
  | JStr s =>
      match s with
      | EmptyString => inl "invalid input syntax for integer"
      | _ => match StringToNumber s with
             | Some q => int4 q
             | None => inl "invalid input syntax for integer"
             end
      end
  | _ => inl "invalid input syntax for integer"
  end.

(** A runtime where [res.send] of a function throws. *)
Definition send_function (name : string) : option JSON := None.

Definition platform : Platform :=
  Build_Platform StringToNumber NumberToString hint turf_centroid
    jwt_sign jwt_verify pg_text pg_integer send_function.

End Reference.

(** ** Requests and tables used in the examples *)

Module Examples.

Definition KEY : string := "secret".

Definition catalog : gmap string JSON :=
  {[ "abc-123" := JObj [("uuid", JStr "abc-123"); ("imageID", JStr "1234")];
     "def-456" := JObj [("uuid", JStr "def-456"); ("imageID", JStr "5678")] ]}.

Definition key : Pg.pkey := ("abc-123", "s1", "locate").

(** A completed step, as the statement receives it. *)
Definition first_completed : Pg.excluded :=
  {| Pg.x_uuid := "abc-123"; Pg.x_session := "s1"; Pg.x_step := "locate";
     Pg.x_step_index := 0; Pg.x_image_id := Some "1234";
     Pg.x_completed := true;
     Pg.x_data := Some (JObj [("note", JStr "here")]);
     Pg.x_client := Some (JObj [("ip", JStr "10.0.0.1")]);
     Pg.x_geometry := None; Pg.x_centroid := None |}.

(** The same step completed again, with another payload. *)
Definition second_completed : Pg.excluded :=
  {| Pg.x_uuid := "abc-123"; Pg.x_session := "s1"; Pg.x_step := "locate";
     Pg.x_step_index := 5; Pg.x_image_id := Some "1234";
     Pg.x_completed := true;
     Pg.x_data := Some (JObj [("note", JStr "there")]);
     Pg.x_client := Some (JObj [("ip", JStr "10.0.0.2")]);
     Pg.x_geometry := None; Pg.x_centroid := None |}.

(** The step in progress, at index 0 and then at index 1. *)
Definition first_progress : Pg.excluded :=
  {| Pg.x_uuid := "abc-123"; Pg.x_session := "s1"; Pg.x_step := "locate";
     Pg.x_step_index := 0; Pg.x_image_id := Some "1234";
     Pg.x_completed := false; Pg.x_data := None;
     Pg.x_client := Some (JObj [("ip", JStr "10.0.0.1")]);
     Pg.x_geometry := None; Pg.x_centroid := None |}.

Definition second_progress : Pg.excluded :=
  {| Pg.x_uuid := "abc-123"; Pg.x_session := "s1"; Pg.x_step := "locate";
     Pg.x_step_index := 1; Pg.x_image_id := Some "1234";
     Pg.x_completed := false; Pg.x_data := None;
     Pg.x_client := Some (JObj [("ip", JStr "10.0.0.2")]);
     Pg.x_geometry := None; Pg.x_centroid := None |}.

(** The table after the first commit, at time 1. *)
Definition done_db : Pg.table := {[ key := Pg.inserted 1 first_completed ]}.
Definition progress_db : Pg.table := {[ key := Pg.inserted 1 first_progress ]}.

(** One session on two items: on the first, step [a] completed and step [b]
    in progress, both at index 0; on the second, step [a] completed at
    index 5. *)
Definition step_row (index : Z) (done : bool) (modified : Z) : Pg.columns :=
  {| Pg.step_index := index; Pg.completed := done; Pg.image_id := None;
     Pg.date_created := modified; Pg.date_modified := modified;
     Pg.data := if done then Some (JObj []) else None;
     Pg.client := None; Pg.geometry := None; Pg.centroid := None |}.

Definition step_commit (uuid step : string) (index : Z) (done : bool)
    : Pg.excluded :=
  {| Pg.x_uuid := uuid; Pg.x_session := "s1"; Pg.x_step := step;
     Pg.x_step_index := index; Pg.x_image_id := None;
     Pg.x_completed := done;
     Pg.x_data := if done then Some (JObj []) else None;
     Pg.x_client := None; Pg.x_geometry := None; Pg.x_centroid := None |}.

Definition session_db : Pg.table :=
  {[ ("abc-123", "s1", "a") := step_row 0 true 1;
     ("abc-123", "s1", "b") := step_row 0 false 2;
     ("def-456", "s1", "a") := step_row 5 true 3 ]}.

Definition point12 : JSON :=
  JObj [("type", JStr "Point"); ("coordinates", JArr [JNum 1; JNum 2])].

Definition feature (properties : list (string * JSON)) (geometry : JSON) : JSON :=
  JObj [ ("type", JStr "Feature");
         ("properties", JObj properties);
         ("geometry", geometry) ].

(** [{step: "locate", stepIndex: 0, completed: true, data: {note: "here"}}]
    with the point [[1, 2]]. *)
Definition completed_feature : JSON :=
  feature [ ("step", JStr "locate"); ("stepIndex", JNum 0);
            ("completed", JBool true);
            ("data", JObj [("note", JStr "here")]) ] point12.

(** [{step: "locate", stepIndex: 1, completed: false}] without geometry. *)
Definition progress_feature : JSON :=
  feature [ ("step", JStr "locate"); ("stepIndex", JNum 1);
            ("completed", JBool false) ] JNull.

(** [completed: false] with a geometry. *)
Definition located_progress_feature : JSON :=
  feature [ ("step", JStr "locate"); ("stepIndex", JNum 1);
            ("completed", JBool false) ] point12.







Definition ip : Value := Some (JStr "10.0.0.1").
Definition session : Value := Some (JStr "s1").

(** A server with one observer connected, before any submission and with
    the step in progress. *)
Definition fresh_server : Server :=
  {| items := catalog; locations := ∅; clients := [1%nat] |}.

Definition progress_server : Server :=
  {| items := catalog; locations := progress_db; clients := [1%nat] |}.

End Examples.

(** ** Predicates used in the properties *)

(** A stored row carries the progress metadata of a commit. *)
Definition refreshed (now : Z) (x : Pg.excluded) (c : Pg.columns) : Prop :=
  Pg.step_index c = Pg.x_step_index x
  /\ Pg.data c = Pg.x_data x
  /\ Pg.client c = Pg.x_client x
  /\ Pg.geometry c = Pg.x_geometry x
  /\ Pg.centroid c = Pg.x_centroid x
  /\ Pg.date_modified c = now.

(** The completed rows selected by [among] have a largest [step_index], and
    it is [m]. *)
Definition max_completed (db : Pg.table) (among : Pg.pkey -> Prop) (m : Z) : Prop :=
  (exists k c, db !! k = Some c /\ Pg.completed c = true /\ among k
               /\ Pg.step_index c = m)
  /\ (forall k c, db !! k = Some c -> Pg.completed c = true -> among k ->
                  Pg.step_index c <= m).

(** The rows of one session, and of one item and session. *)
Definition of_session (session : string) (k : Pg.pkey) : Prop := k.1.2 = session.
Definition of_pair (pair : string * string) (k : Pg.pkey) : Prop := k.1 = pair.

Definition session_of (j : Query.joined) : string := (Query.l_key j).1.2.

(** [v.k] when reading it does not throw. *)
Definition read (k : string) (v : Value) : Value :=
  match member k v with
  | inr x => x
  | inl _ => None
  end.

(** [undefined] and [null], whose members cannot be read. *)
Definition nullish (v : Value) : bool :=
  match v with
  | None | Some JNull => true
  | Some _ => false
  end.

(** The 200 of a successful submission. *)
Definition success : Response := Send 200 (JObj [("result", JStr "success")]).

(** ** Successive commits *)

(** The statement run once for each record of [cs], in order, each at its
    own time. *)
Fixpoint commits (cs : list (Z * Pg.excluded)) (db : Pg.table) : string + Pg.table :=
  match cs with
  | [] => inr db
  | (now, x) :: cs =>
      match Pg.commitStep now x db with
      | inl message => inl message
      | inr db => commits cs db
      end
  end.

(** Every stored row was created no later than it was last modified. *)
Definition timestamps_ordered (db : Pg.table) : Prop :=
  forall k c, db !! k = Some c -> Pg.date_created c <= Pg.date_modified c.

(** No stored row is later than [t]. *)
Definition not_after (t : Z) (db : Pg.table) : Prop :=
  forall k c, db !! k = Some c -> Pg.date_created c <= t.

(** Two rows that differ in [date_modified] at most. *)
Definition same_but_modified (c c' : Pg.columns) : Prop :=
  Pg.step_index c = Pg.step_index c'
  /\ Pg.completed c = Pg.completed c'
  /\ Pg.image_id c = Pg.image_id c'
  /\ Pg.date_created c = Pg.date_created c'
  /\ Pg.data c = Pg.data c'
  /\ Pg.client c = Pg.client c'
  /\ Pg.geometry c = Pg.geometry c'
  /\ Pg.centroid c = Pg.centroid c'.

(** Only completed rows carry [data]. *)
Definition data_only_when_completed (db : Pg.table) : Prop :=
  forall k c, db !! k = Some c -> Pg.completed c = false -> Pg.data c = None.

(** ** The catalog *)

(** [o[k] = v] on an object's members: the member is replaced where it
    stands, or added last; a member set to [undefined] is left out, as
    [JSON.stringify] leaves it out. *)
Fixpoint set_member (k : string) (v : Value) (kvs : list (string * JSON))
    : list (string * JSON) :=
  match kvs with
  | [] => match v with Some j => [(k, j)] | None => [] end
  | (k', j') :: kvs =>
      if String.eqb k k'
      then match v with Some j => [(k, j)] | None => [] end
           ++ filter (fun m => m.1 <> k) kvs
      else (k', j') :: set_member k v kvs
  end.

(** [s.includes(needle)] on strings. *)
Definition String_includes (needle s : string) : bool :=
  match index 0 needle s with
  | Some _ => true
  | None => false
  end.

Section Catalog.
Context {platform : Platform}.
(** [xs.includes(needle)] on arrays, which the older runtimes do not have. *)
Variable Array_includes : list JSON -> string -> Handler bool.

(** The key [items[v] = ...] writes to. *)
Definition PropertyKey (v : Value) : Handler string :=
  match v with
  | None => inr "undefined"
  | Some j => ToString j
  end.

(** [imageLink.includes('&t=w&')] *)
Definition includes (needle : string) (imageLink : JSON) : Handler bool :=
  match imageLink with
  | JStr s => inr (String_includes needle s)
  | JArr xs => Array_includes xs needle
  | _ => inl (Uncaught "TypeError")
  end.

(** [links.filter(function (imageLink) { return imageLink.includes('&t=w&') })]:
    every link is visited. *)
Fixpoint filter_links (links : list JSON) : Handler (list JSON) :=
  match links with
  | [] => inr []
  | link :: links =>
      keep <- includes "&t=w&" link ;;
      rest <- filter_links links ;;
      inr (if keep then link :: rest else rest)
  end.

(** [items] while it is loaded: its entries, and its prototype once an
    assignment to [__proto__] has replaced [Object.prototype]. *)
Record Loading : Type := mkLoading {
  entries : gmap string JSON;
  prototype : option JSON
}.

(** The body of the [forEach]: [item.imageLink] becomes the first link that
    includes [&t=w&], and the item is stored under its [uuid].  Storing
    under [__proto__] makes the item the prototype of [items] and adds no
    entry. *)
Definition add_item (item : JSON) (items : Loading) : Handler Loading :=
  match item with
  | JObj kvs =>
      match assoc "imageLink" kvs with
      | Some (JArr links) =>
          kept <- filter_links links ;;
          let kvs := set_member "imageLink" (head kept) kvs in
          key <- PropertyKey (assoc "uuid" kvs) ;;
          if String.eqb key "__proto__"
          then inr {| entries := entries items; prototype := Some (JObj kvs) |}
          else inr {| entries := <[key := JObj kvs]> (entries items);
                      prototype := prototype items |}
      | _ => inl (Uncaught "TypeError")
      end
  | _ => inl (Uncaught "TypeError")
  end.

(** [flat.filter((item) => item.imageLink).forEach(...)], where [flat] is
    [R.flatten(collectionData)], a list of plain objects, and [items] the
    catalog so far. *)
Fixpoint add_items (flat : list JSON) (items : Loading) : Handler Loading :=
  match flat with
  | [] => inr items
  | item :: flat =>
      imageLink <- member "imageLink" (Some item) ;;
      if truthy imageLink
      then items <- add_item item items ;; add_items flat items
      else add_items flat items
  end.

(** [items], starting from [var items = {}]. *)
Definition load_items (flat : list JSON) : Handler Loading :=
  add_items flat {| entries := ∅; prototype := None |}.

(** [stored] is the first of [links] that includes [&t=w&], or nothing when
    none of them does. *)
Definition first_marked (links : list JSON) (stored : Value) : Prop :=
  (stored = None
   /\ forall link, link ∈ links -> includes "&t=w&" link = inr false)
  \/ (exists i link,
        links !! i = Some link
        /\ stored = Some link
        /\ includes "&t=w&" link = inr true
        /\ forall j earlier, (j < i)%nat -> links !! j = Some earlier ->
                             includes "&t=w&" earlier = inr false).

(** What [item], stored under [k], owes to the list it was loaded from: it
    is one of the listed objects, whose [imageLink] was an array of links;
    it is stored under its own [uuid], with every member but [imageLink] as
    listed; and its [imageLink] is the first of those links that includes
    [&t=w&], or absent when none does. *)
Definition catalog_entry (flat : list JSON) (k : string) (item : JSON) : Prop :=
  exists kvs original links,
    item = JObj kvs
    /\ PropertyKey (assoc "uuid" kvs) = inr k
    /\ JObj original ∈ flat
    /\ assoc "imageLink" original = Some (JArr links)
    /\ (forall key, key <> "imageLink" -> assoc key kvs = assoc key original)
    /\ first_marked links (assoc "imageLink" kvs)
    /\ (forall s, assoc "imageLink" kvs = Some (JStr s) ->
                  exists m, substring m 5 s = "&t=w&").

End Catalog.

(** [uuids = R.keys(items)] *)
Definition uuids (items : gmap string JSON) : list string :=
  (map_to_list items).*1.

(** [app.get('/items/random', ...)]: [draw] is
    [Math.floor(Math.random() * uuids.length)]. *)
Definition get_random_item `{platform : Platform} (KEY : string) (srv : Server)
    (authorization : option string) (randomString : string) (draw : nat)
    : string * Response :=
  get_item KEY srv authorization randomString (uuids (items srv) !! draw).

(** ** [app.use(bodyParser.json())] *)

(** The body of a request as the parser meets it. *)
Inductive RequestBody : Type :=
| NoJson               (* no body, or one that is not sent as JSON *)
| Json (v : JSON)      (* a JSON text, which parses to [v] *)
| Refused (status : Z) (* a body the parser cannot read or will not take *).

Section BodyParser.
Context {platform : Platform}.
(** The body of the error answer the framework writes for a status. *)
Variable error_page : Z -> JSON.

(** [bodyParser.json()]: [req.body], or the parser's error.  The parser is
    strict: a JSON text that is no object and no array is a syntax error,
    answered 400. *)
Definition bodyParser_json (body : RequestBody) : Handler JSON :=
  match body with
  | NoJson => inr (JObj [])
  | Json (JObj _ as v) | Json (JArr _ as v) => inr v
  | Json _ => inl (Send 400 (error_page 400))
  | Refused status => inl (Send status (error_page status))
  end.

(** A [POST /items/:uuid] from the wire: the parser, then the route. *)
Definition post_request (KEY : string) (srv : Server) (fault : option string)
    (now : Z) (authorization : option string) (uuid : string)
    (body : RequestBody) (ip : Value) : Outcome :=
  match bodyParser_json body with
  | inl refusal =>
      {| response := refusal; store := locations srv; sent := [] |}
  | inr feature => post_item KEY srv fault now authorization uuid feature ip
  end.

End BodyParser.

(** ** [app.get('/items/:uuid/mods')] *)

Section Mods.
(** [res.send(body)] for a body of any type, as the framework answers. *)
Variable res_send : JSON -> Response.
(** [request({url, json: true, headers: {Authorization}}, callback)]: the
    [error] and the [body] the callback receives. *)
Variable request : string -> string -> Value * Value.

(** [a && b] *)
Definition and_also (a : Value) (b : Handler Value) : Handler Value :=
  if truthy a then b else inr a.

(** [body && body.nyplAPI && body.nyplAPI.response
     && body.nyplAPI.response.mods] *)
Definition mods_of (body : Value) : Handler Value :=
  t1 <- and_also body (member "nyplAPI" body) ;;
  t2 <- and_also t1 (nyplAPI <- member "nyplAPI" body ;;
                     member "response" nyplAPI) ;;
  and_also t2 (nyplAPI <- member "nyplAPI" body ;;
               response <- member "response" nyplAPI ;;
               member "mods" response).

Definition quote : string := String (ascii_of_nat 34) EmptyString.

Definition get_mods (DIGITAL_COLLECTIONS_TOKEN : option string) (uuid : string)
    : Response :=
  match DIGITAL_COLLECTIONS_TOKEN with
  | Some token =>
      if truthy (Some (JStr token)) then
        let reply :=
          request ("http://api.repo.nypl.org/api/v1/items/mods_captures/" ++ uuid)
                  ("Token token=" ++ quote ++ token ++ quote) in
        if truthy reply.1
        then error 500 (default JNull reply.1)
        else
          match mods_of reply.2 with
          | inl thrown => thrown
          | inr found =>
              if truthy found
              then match nyplAPI <- member "nyplAPI" reply.2 ;;
                         response <- member "response" nyplAPI ;;
                         member "mods" response with
                   | inr (Some mods) => res_send mods
                   | inr None => res_send JNull
                   | inl thrown => thrown
                   end
              else error 406 (JStr "Cannot parse MODS result")
          end
      else error 401 (JStr "Not authorized")
  | None => error 401 (JStr "Not authorized")
  end.

End Mods.

(** ** More requests and data for the examples *)

Module Samples.

(** [stepIndex: null] *)
Definition null_index_feature : JSON :=
  Examples.feature [ ("step", JStr "locate"); ("stepIndex", JNull);
                     ("completed", JBool false) ] JNull.





(** Two listed items: the first with two image links, of which the second
    carries the marker; the second without [imageLink]. *)
Definition flat : list JSON :=
  [ JObj [ ("uuid", JStr "abc-123"); ("imageID", JStr "1234");
           ("imageLink",
             JArr [ JStr "http://images.nypl.org/index.php?id=1234&t=b&x";
                    JStr "http://images.nypl.org/index.php?id=1234&t=w&x" ]);
           ("collection", JStr "c-1") ];
    JObj [ ("uuid", JStr "def-456"); ("collection", JStr "c-1") ] ].

(** A server that holds a row of another session. *)
Definition other_session_key : Pg.pkey := ("abc-123", "s2", "locate").

Definition two_sessions_server : Server :=
  {| items := Examples.catalog;
     locations := <[other_session_key := Pg.inserted 1 Examples.first_completed]>
                    Examples.progress_db;
     clients := [1%nat] |}.

Definition loaded : gmap string JSON :=
  {[ "abc-123" :=
       JObj [ ("uuid", JStr "abc-123"); ("imageID", JStr "1234");
              ("imageLink",
                JStr "http://images.nypl.org/index.php?id=1234&t=w&x");
              ("collection", JStr "c-1") ] ]}.

(** An error page. *)
Definition error_page (status : Z) : JSON := JStr "Bad Request".

(** A runtime whose arrays have no [includes]. *)
Definition no_Array_includes (xs : list JSON) (needle : string) : Handler bool :=
  inl (Uncaught "TypeError").

End Samples.

(** * Properties *)

(** ** The statement, case by case *)

Section commitStep_cases.
Variables (now : Z) (x : Pg.excluded) (db : Pg.table).

Lemma arbiters_pkey : Pg.arbiters = [Pg.locations_pkey].
Proof. reflexivity. Qed.

Lemma commitStep_absent :
  db !! Pg.x_pkey x = None ->
  Pg.commitStep now x db = inr (<[Pg.x_pkey x := Pg.inserted now x]> db).
Proof. intros E. unfold Pg.commitStep. rewrite arbiters_pkey, E. reflexivity. Qed.

Lemma commitStep_completed old :
  db !! Pg.x_pkey x = Some old -> Pg.x_completed x = true ->
  Pg.commitStep now x db = inr (<[Pg.x_pkey x := Pg.updated now x old]> db).
Proof.
  intros E C. unfold Pg.commitStep, Pg.update_where.
  rewrite arbiters_pkey, E, C. reflexivity.
Qed.

Lemma commitStep_in_progress old :
  db !! Pg.x_pkey x = Some old -> Pg.x_completed x = false ->
  Pg.commitStep now x db = inr db.
Proof.
  intros E C. unfold Pg.commitStep, Pg.update_where.
  rewrite arbiters_pkey, E, C. reflexivity.
Qed.

(** The statement never fails on the table [createTable] declares. *)
Lemma commitStep_succeeds : exists db', Pg.commitStep now x db = inr db'.
Proof.
  destruct (db !! Pg.x_pkey x) as [old|] eqn:E.
  - destruct (Pg.x_completed x) eqn:C.
    + eexists. by apply commitStep_completed.
    + eexists. by eapply commitStep_in_progress.
  - eexists. by apply commitStep_absent.
Qed.

(** Rows under another key are out of the statement's reach. *)
Lemma commitStep_other db' k :
  Pg.commitStep now x db = inr db' -> k <> Pg.x_pkey x -> db' !! k = db !! k.
Proof.
  intros H Hk. unfold Pg.commitStep in H. rewrite arbiters_pkey in H.
  destruct (db !! Pg.x_pkey x) as [old|] eqn:E; simpl in H.
  - destruct (Pg.update_where x); inversion H; subst; auto.
    by rewrite lookup_insert_ne.
  - inversion H; subst. by rewrite lookup_insert_ne.
Qed.

(** The half of the forward-only rule the statement keeps: once stored, a
    [completed] flag does not go back to false. *)
Lemma commitStep_never_downgrades old :
  db !! Pg.x_pkey x = Some old -> Pg.completed old = true ->
  forall db' c, Pg.commitStep now x db = inr db' ->
  db' !! Pg.x_pkey x = Some c -> Pg.completed c = true.
Proof.
  intros E C db' c H L.
  destruct (Pg.x_completed x) eqn:X.
  - rewrite (commitStep_completed old E X) in H. inversion H; subst.
    rewrite lookup_insert_eq in L. inversion L; subst. exact X.
  - rewrite (commitStep_in_progress old E X) in H. inversion H; subst.
    rewrite E in L. by inversion L; subst.
Qed.

End commitStep_cases.

(** ** The per-triple state machine *)

(** C1, at the failing input.  The row for the triple is stored with
    [completed = true] and the note [here]; committing the same step again
    with [completed = true] and the note [there] succeeds and replaces the
    stored [step_index], [data], [client] and [date_modified]: a completed
    row is overwritten by a later completed commit. *)
Theorem completed_row_is_overwritten :
  Pg.commitStep 1 Examples.first_completed ∅ = inr Examples.done_db
  /\ Examples.done_db !! Examples.key = Some (Pg.inserted 1 Examples.first_completed)
  /\ Pg.completed (Pg.inserted 1 Examples.first_completed) = true
  /\ exists db,
       Pg.commitStep 2 Examples.second_completed Examples.done_db = inr db
       /\ db !! Examples.key
          = Some {| Pg.step_index := 5; Pg.completed := true;
                    Pg.image_id := Some "1234";
                    Pg.date_created := 1; Pg.date_modified := 2;
                    Pg.data := Some (JObj [("note", JStr "there")]);
                    Pg.client := Some (JObj [("ip", JStr "10.0.0.2")]);
                    Pg.geometry := None; Pg.centroid := None |}
       /\ db !! Examples.key <> Examples.done_db !! Examples.key.
Proof.
  assert (L : Examples.done_db !! Examples.key
              = Some (Pg.inserted 1 Examples.first_completed))
    by apply lookup_singleton_eq.
  split; [|split; [exact L|split; [reflexivity|]]].
  - rewrite commitStep_absent by apply lookup_empty. reflexivity.
  - eexists. split; [|split].
    + apply (commitStep_completed 2 Examples.second_completed _ _ L). reflexivity.
    + change (Pg.x_pkey Examples.second_completed) with Examples.key.
      rewrite lookup_insert_eq. reflexivity.
    + change (Pg.x_pkey Examples.second_completed) with Examples.key.
      rewrite lookup_insert_eq, L. discriminate.
Qed.

(** C4 as stated fails: the step is stored in progress at index 0 (time 1);
    committing it in progress at index 1 (time 2) succeeds, and the stored
    row is not refreshed. *)
Lemma in_progress_commit_refreshes_nothing :
  Examples.progress_db !! Pg.x_pkey Examples.second_progress
    = Some (Pg.inserted 1 Examples.first_progress)
  /\ Pg.completed (Pg.inserted 1 Examples.first_progress) = false
  /\ Pg.x_completed Examples.second_progress = false
  /\ ~ exists db c,
         Pg.commitStep 2 Examples.second_progress Examples.progress_db = inr db
         /\ db !! Pg.x_pkey Examples.second_progress = Some c
         /\ refreshed 2 Examples.second_progress c.
Proof.
  assert (L : Examples.progress_db !! Pg.x_pkey Examples.second_progress
              = Some (Pg.inserted 1 Examples.first_progress))
    by apply lookup_singleton_eq.
  split; [exact L|split; [reflexivity|split; [reflexivity|]]].
  intros (db & c & H & Hc & R).
  rewrite (commitStep_in_progress 2 _ _ _ L eq_refl) in H.
  inversion H; subst. rewrite L in Hc. inversion Hc; subst.
  destruct R as [R _]. discriminate R.
Qed.

(** C4, amended.  When the stored row of a triple has [completed = false],
    a commit for the triple with [completed = false] succeeds and leaves the
    table, and so the stored row, as it was. *)
Theorem in_progress_commit_is_noop (now : Z) (x : Pg.excluded) (db : Pg.table)
    (old : Pg.columns) :
  db !! Pg.x_pkey x = Some old ->
  Pg.completed old = false ->
  Pg.x_completed x = false ->
  Pg.commitStep now x db = inr db /\ db !! Pg.x_pkey x = Some old.
Proof.
  intros L _ X. split; [|exact L]. by eapply commitStep_in_progress.
Qed.

Lemma in_progress_commit_is_noop_witness :
  Pg.commitStep 2 Examples.second_progress Examples.progress_db
    = inr Examples.progress_db
  /\ Examples.progress_db !! Pg.x_pkey Examples.second_progress
     = Some (Pg.inserted 1 Examples.first_progress).
Proof.
  apply (in_progress_commit_is_noop 2 Examples.second_progress
           Examples.progress_db (Pg.inserted 1 Examples.first_progress)).
  - apply lookup_singleton_eq.
  - reflexivity.
  - reflexivity.
Defined.

(** ** [locationsQuery] *)

Section locationsQuery_rows.
Variable db : Pg.table.

Lemma elem_of_rows k c : (k, c) ∈ Query.rows db <-> db !! k = Some c.
Proof. apply elem_of_map_to_list. Qed.

Lemma MAX_greatest zs m :
  Query.MAX zs = Some m -> m ∈ zs /\ forall z, z ∈ zs -> z <= m.
Proof.
  destruct zs as [|z zs]; [discriminate|]. simpl. intros [= <-].
  induction zs as [|y zs [IHin IHle]]; simpl.
  - split; [left|]. intros ? ->%list_elem_of_singleton. lia.
  - rewrite !elem_of_cons in *. split.
    + destruct (Z.max_spec y (foldr Z.max z zs)) as [[_ ->]|[_ ->]]; tauto.
    + intros w Hw. rewrite !elem_of_cons in Hw.
      assert (forall v, v = z \/ v ∈ zs -> v <= foldr Z.max z zs) as IH'.
      { intros v Hv. apply IHle. by apply elem_of_cons. }
      destruct Hw as [->|[->|I]]; [specialize (IH' z)|lia|specialize (IH' w)];
        try (specialize (IH' ltac:(tauto)); lia).
Qed.

Lemma MAX_is_Some zs z : z ∈ zs -> is_Some (Query.MAX zs).
Proof. destruct zs; [inversion 1|]. by eexists. Qed.

(** The subquery: one row for each item and session with a completed step,
    carrying the largest completed [step_index]. *)
Lemma elem_of_subquery g m :
  (g, m) ∈ Query.subquery db <-> max_completed db (of_pair g) m.
Proof.
  unfold Query.subquery, max_completed, of_pair.
  rewrite list_elem_of_omap. split.
  - intros (g' & Hg & E).
    destruct (Query.MAX _) as [m'|] eqn:M; [|discriminate].
    injection E as <- <-.
    apply MAX_greatest in M as [Hin Hle]. split.
    + apply list_elem_of_fmap in Hin as ([k c] & -> & Hr).
      apply list_elem_of_filter in Hr as [G Hr].
      apply list_elem_of_filter in Hr as [C Hr].
      apply elem_of_rows in Hr. unfold Query.in_group in G.
      apply bool_decide_eq_true in G. by exists k, c.
    + intros k c L C G. apply Hle.
      apply list_elem_of_fmap. exists (k, c). split; [done|].
      apply list_elem_of_filter. split.
      { unfold Query.in_group. by apply bool_decide_eq_true. }
      apply list_elem_of_filter. split; [done|]. by apply elem_of_rows.
  - intros [(k & c & L & C & G & S) Hle].
    assert (Hin : (k, c) ∈ filter (fun r => Query.in_group g r = true)
                     (filter (fun r => Pg.completed r.2 = true) (Query.rows db))).
    { apply list_elem_of_filter. split.
      { unfold Query.in_group. by apply bool_decide_eq_true. }
      apply list_elem_of_filter. split; [done|]. by apply elem_of_rows. }
    exists g. split.
    + apply elem_of_remove_dups, list_elem_of_fmap. exists (k, c).
      split; [done|]. apply list_elem_of_filter. split; [done|].
      by apply elem_of_rows.
    + destruct (MAX_is_Some
                  (map (fun r => Pg.step_index r.2)
                     (filter (fun r => Query.in_group g r = true)
                        (filter (fun r => Pg.completed r.2 = true) (Query.rows db))))
                  (Pg.step_index c)) as [m' M].
      { apply list_elem_of_fmap. by exists (k, c). }
      rewrite M. simpl. f_equal. f_equal.
      apply MAX_greatest in M as [Hin' Hle'].
      apply Z.le_antisymm.
      * apply list_elem_of_fmap in Hin' as ([k' c'] & -> & Hr).
        apply list_elem_of_filter in Hr as [G' Hr].
        apply list_elem_of_filter in Hr as [C' Hr].
        apply elem_of_rows in Hr. unfold Query.in_group in G'.
        apply bool_decide_eq_true in G'. by apply (Hle k' c').
      * rewrite <- S. apply Hle'. apply list_elem_of_fmap. by exists (k, c).
Qed.

(** A group has one row in the subquery. *)
Lemma subquery_functional g m m' :
  (g, m) ∈ Query.subquery db -> (g, m') ∈ Query.subquery db -> m = m'.
Proof.
  intros [(k & c & L & C & G & S) Hle]%elem_of_subquery
         [(k' & c' & L' & C' & G' & S') Hle']%elem_of_subquery.
  apply Z.le_antisymm.
  - rewrite <- S. by apply (Hle' k c).
  - rewrite <- S'. by apply (Hle k' c').
Qed.

Lemma elem_of_join j :
  j ∈ Query.join db <->
  db !! Query.l_key j = Some (Query.l j)
  /\ (Query.l_key j).1 = (Query.s_uuid j, Query.s_session j)
  /\ Pg.step_index (Query.l j) = Query.max_step j
  /\ max_completed db (of_pair (Query.s_uuid j, Query.s_session j)) (Query.max_step j).
Proof.
  unfold Query.join. rewrite list_elem_of_bind. split.
  - intros ([[u s] m] & Hj & Hs).
    apply list_elem_of_bind in Hj as ([k c] & Hj & Hr).
    apply list_elem_of_singleton in Hj as ->. simpl in *.
    apply list_elem_of_filter in Hr as [[S G] Hr]. simpl in *.
    apply elem_of_rows in Hr. apply elem_of_subquery in Hs.
    tauto.
  - intros (L & G & S & M). destruct j as [u s m k c]. simpl in *.
    exists (u, s, m). split; [|by apply elem_of_subquery].
    apply list_elem_of_bind. exists (k, c). split.
    + simpl. by apply list_elem_of_singleton.
    + apply list_elem_of_filter. split; [done|]. by apply elem_of_rows.
Qed.

Lemma NoDup_subquery : NoDup (Query.subquery db).
Proof.
  unfold Query.subquery.
  set (done := filter _ (Query.rows db)).
  set (gs := remove_dups _).
  assert (Hgs : NoDup gs) by apply NoDup_remove_dups.
  clearbody gs. induction Hgs as [|g gs Hn Hd IH]; simpl; [constructor|].
  destruct (Query.MAX _) as [m|]; simpl; [|exact IH].
  constructor; [|exact IH].
  intros (g' & Hg & E)%list_elem_of_omap.
  destruct (Query.MAX _); [|discriminate]. simpl in E. by injection E as -> _.
Qed.

(** Each stored row is joined at most once. *)
Lemma NoDup_join_keys : NoDup (Query.l_key <$> Query.join db).
Proof.
  apply NoDup_fmap_2_strong.
  - intros j j' (L & G & S & M)%elem_of_join (L' & G' & S' & M')%elem_of_join E.
    destruct j as [u s m k c], j' as [u' s' m' k' c']. simpl in *. subst k'.
    rewrite L in L'. injection L' as <-.
    rewrite G in G'. injection G' as <- <-.
    by rewrite <- S, <- S'.
  - unfold Query.join. apply NoDup_bind.
    + intros [[u s] m] [[u' s'] m'] j Hs Hs'
        ([k c] & ->%list_elem_of_singleton & Hr)%list_elem_of_bind
        ([k' c'] & [= -> -> -> -> ->]%list_elem_of_singleton & Hr')%list_elem_of_bind.
      done.
    + intros [[u s] m] Hs. apply NoDup_bind.
      * intros r r' j _ _ ->%list_elem_of_singleton E%list_elem_of_singleton.
        destruct r, r'. by injection E as -> ->.
      * intros. apply NoDup_singleton.
      * apply NoDup_filter, NoDup_map_to_list.
    + apply NoDup_subquery.
Qed.

End locationsQuery_rows.

#[local] Instance newer_first_total : Total Query.newer_first.
Proof. intros a b. unfold Query.newer_first. lia. Qed.

(** [Examples.session_db] is the table after three commits. *)
Example session_db_commits :
  exists db1 db2,
    Pg.commitStep 1 (Examples.step_commit "abc-123" "a" 0 true) ∅ = inr db1
    /\ Pg.commitStep 2 (Examples.step_commit "abc-123" "b" 0 false) db1 = inr db2
    /\ Pg.commitStep 3 (Examples.step_commit "def-456" "a" 5 true) db2
       = inr Examples.session_db.
Proof.
  eexists _, _. split; [|split].
  - apply commitStep_absent. reflexivity.
  - apply commitStep_absent. vm_compute. reflexivity.
  - rewrite commitStep_absent by (vm_compute; reflexivity).
    vm_compute. reflexivity.
Qed.

(** C5 as stated fails.  On [Examples.session_db] one session has three
    stored rows: on the first item, step [a] completed and step [b] in
    progress, both at index 0; on the second item, step [a] completed at
    index 5.  The query returns all three: several records for the one
    session, one of them not completed, and two whose index is not the
    largest completed index of the session. *)
Lemma locationsQuery_one_session_many_rows :
  ~ NoDup (session_of <$> Query.locationsQuery Examples.session_db)
  /\ ~ (forall j, j ∈ Query.locationsQuery Examples.session_db ->
                  Pg.completed (Query.l j) = true)
  /\ ~ (forall j, j ∈ Query.locationsQuery Examples.session_db ->
                  max_completed Examples.session_db (of_session (session_of j))
                    (Pg.step_index (Query.l j))).
Proof.
  assert (E : Query.locationsQuery Examples.session_db
              = [ Query.mkJoined "def-456" "s1" 5 ("def-456", "s1", "a")
                    (Examples.step_row 5 true 3);
                  Query.mkJoined "abc-123" "s1" 0 ("abc-123", "s1", "b")
                    (Examples.step_row 0 false 2);
                  Query.mkJoined "abc-123" "s1" 0 ("abc-123", "s1", "a")
                    (Examples.step_row 0 true 1) ])
    by (vm_compute; reflexivity).
  rewrite E. split; [|split].
  - intros N. simpl in N. apply NoDup_cons in N as [N _]. apply N. left.
  - intros H.
    specialize (H (Query.mkJoined "abc-123" "s1" 0 ("abc-123", "s1", "b")
                     (Examples.step_row 0 false 2)) ltac:(right; left)).
    discriminate H.
  - intros H.
    specialize (H (Query.mkJoined "abc-123" "s1" 0 ("abc-123", "s1", "a")
                     (Examples.step_row 0 true 1)) ltac:(right; right; left)).
    destruct H as [_ H].
    specialize (H ("def-456", "s1", "a") (Examples.step_row 5 true 3)
                  ltac:(vm_compute; reflexivity) eq_refl eq_refl).
    simpl in H. lia.
Qed.

(** C5, amended.  For every table, [locationsQuery] returns each stored row
    at most once, so at most one record for each item, session and step; it
    returns exactly the stored rows, completed or not, whose [step_index] is
    the largest [step_index] among the completed rows of the same item and
    session; and the records come ordered by [date_modified], newest
    first. *)
Theorem locationsQuery_returns (db : Pg.table) :
  Sorted Query.newer_first (Query.locationsQuery db)
  /\ NoDup (Query.l_key <$> Query.locationsQuery db)
  /\ forall j, j ∈ Query.locationsQuery db <->
       db !! Query.l_key j = Some (Query.l j)
       /\ (Query.l_key j).1 = (Query.s_uuid j, Query.s_session j)
       /\ Pg.step_index (Query.l j) = Query.max_step j
       /\ max_completed db (of_pair (Query.s_uuid j, Query.s_session j))
            (Query.max_step j).
Proof.
  unfold Query.locationsQuery. split; [|split].
  - apply Sorted_merge_sort. apply _.
  - rewrite merge_sort_Permutation. apply NoDup_join_keys.
  - intros j. rewrite merge_sort_Permutation. apply elem_of_join.
Qed.

(** ** The handler *)

Section Pipeline.
Context {platform : Platform}.
Variables (srv : Server) (fault : option string) (now : Z).
Variables (uuid : string) (session : Value) (feature : JSON) (ip : Value).

Lemma member_read k v : nullish v = false -> member k v = inr (read k v).
Proof. unfold read. by destruct v as [[]|]. Qed.


Lemma bind_inr {A B} (m : Handler A) (k : A -> Handler B) b :
  bind m k = inr b -> exists a, m = inr a /\ k a = inr b.
Proof. destruct m; [discriminate|]. eauto. Qed.

(** Every answer given before the query is a 404, a 406 or an exception. *)
Lemma pairing_early completed data r :
  pairing completed data = inl r -> status_of r = Some 406.
Proof.
  unfold pairing. repeat case_match; intros [= <-]; reflexivity.
Qed.

Lemma member_early k v r : member k v = inl r -> status_of r = None.
Proof. destruct v as [[]|]; simpl; intros [= <-]; reflexivity. Qed.

Lemma bind_inl {A B} (m : Handler A) (k : A -> Handler B) r :
  bind m k = inl r -> m = inl r \/ exists a, m = inr a /\ k a = inl r.
Proof. destruct m; simpl; [intros [= <-]; by left|]. eauto. Qed.

(** Induction on a document, through its arrays. *)
Lemma JSON_elements_ind (P : JSON -> Prop) :
  P JNull -> (forall b, P (JBool b)) -> (forall q, P (JNum q)) ->
  (forall s, P (JStr s)) ->
  (forall xs, Forall P xs -> P (JArr xs)) ->
  (forall kvs, P (JObj kvs)) ->
  forall v, P v.
Proof.
  intros Hnull Hbool Hnum Hstr Harr Hobj.
  exact (fix IH (v : JSON) : P v :=
           match v with
           | JNull => Hnull
           | JBool b => Hbool b
           | JNum q => Hnum q
           | JStr s => Hstr s
           | JArr xs =>
               Harr xs ((fix all (xs : list JSON) : Forall P xs :=
                           match xs with
                           | [] => @List.Forall_nil _ P
                           | x :: xs => @List.Forall_cons _ P x xs (IH x) (all xs)
                           end) xs)
           | JObj kvs => Hobj kvs
           end).
Qed.

Lemma ToString_JArr xs :
  ToString (JArr xs)
  = (texts <- element_texts xs ;; inr (String.concat "," texts)).
Proof. reflexivity. Qed.

Lemma element_texts_early xs r :
  Forall (fun v => forall r, ToString v = inl r -> status_of r = None) xs ->
  element_texts xs = inl r -> status_of r = None.
Proof.
  induction 1 as [|x xs Hx _ IH]; simpl; [discriminate|].
  intros [H|(text & _ & [H|(texts & _ & H)]%bind_inl)]%bind_inl.
  - destruct x; try discriminate; by apply Hx.
  - by apply IH.
  - discriminate.
Qed.

(** A conversion to a string answers nothing: it gives the text or throws. *)
Lemma ToString_early v : forall r, ToString v = inl r -> status_of r = None.
Proof.
  induction v as [| [] | | |xs IH|kvs] using JSON_elements_ind; intros r;
    try discriminate.
  - rewrite ToString_JArr.
    intros [H|(texts & _ & H)]%bind_inl; [|discriminate].
    by apply (element_texts_early xs).
  - simpl. destruct (assoc "toString" kvs); [|discriminate].
    by intros [= <-].
Qed.

Lemma join_early sep v r : join sep v = inl r -> status_of r = None.
Proof.
  destruct v as [[| | | |xs|]|]; simpl; try (by intros [= <-]).
  intros [H|(texts & _ & H)]%bind_inl; [|discriminate].
  apply (element_texts_early xs); [|done].
  apply Forall_forall. intros x _. apply ToString_early.
Qed.

Lemma ToNumber_early v r : ToNumber v = inl r -> status_of r = None.
Proof.
  destruct v as [[| | | |xs|kvs]|]; try discriminate;
    intros [H|(text & _ & H)]%bind_inl; try discriminate;
    by apply ToString_early in H.
Qed.

Lemma ge0_early v r : ge0 v = inl r -> status_of r = None.
Proof.
  intros [H|(n & _ & H)]%bind_inl; [|discriminate]. by apply ToNumber_early in H.
Qed.

Lemma locate_early geometry r :
  locate feature geometry = inl r -> status_of r = Some 406 \/ status_of r = None.
Proof.
  unfold locate. destruct (truthy geometry); [|discriminate].
  destruct (bool_decide _); [intros [= <-]; by left|].
  destruct geometry as [g|]; [|discriminate].
  destruct (truthy (turf_centroid g)); [|discriminate].
  intros [H|(point & _ & [H|(coordinates & _ & [H|(text & _ & H)]%bind_inl)
                          ]%bind_inl)]%bind_inl; right.
  - by apply member_early in H.
  - by apply member_early in H.
  - by apply join_early in H.
  - discriminate.
Qed.

Lemma build_row_early r :
  build_row (items srv) uuid session feature ip = inl r ->
  status_of r = Some 404 \/ status_of r = Some 406 \/ status_of r = None.
Proof.
  unfold build_row. intros H.
  repeat match type of H with
         | bind _ _ = inl _ => apply bind_inl in H as [H|(? & ? & H)]
         | (if ?c then _ else _) = _ => destruct c eqn:?
         end;
    try discriminate;
    try (injection H as <-; simpl; by auto);
    first [ apply member_early in H
          | apply pairing_early in H
          | apply locate_early in H
          | apply ge0_early in H ];
    intuition.
Qed.


(** A 200 is the answer of the success branch alone. *)
Lemma submit_success_inv :
  status_of (response (submit srv fault now uuid session feature ip)) = Some 200 ->
  exists row data geometry db,
    build_row (items srv) uuid session feature ip = inr (row, data, geometry)
    /\ executeQuery fault now row (locations srv) = inr db
    /\ submit srv fault now uuid session feature ip
       = {| response := success; store := db;
            sent := emitEvent (clients srv) row data geometry |}.
Proof.
  unfold submit.
  destruct (build_row _ _ _ _ _) as [r|[[row data] geometry]] eqn:B.
  - apply build_row_early in B. simpl. intros E. rewrite E in B.
    intuition discriminate.
  - destruct (executeQuery _ _ _ _) as [message|db] eqn:Q; simpl.
    + discriminate.
    + intros _. by exists row, data, geometry, db.
Qed.

(** Without a 200 the table is untouched and nothing is sent. *)
Lemma submit_failure :
  status_of (response (submit srv fault now uuid session feature ip)) <> Some 200 ->
  store (submit srv fault now uuid session feature ip) = locations srv
  /\ sent (submit srv fault now uuid session feature ip) = [].
Proof.
  unfold submit.
  destruct (build_row _ _ _ _ _) as [r|[[row data] geometry]]; [done|].
  destruct (executeQuery _ _ _ _); [done|]. simpl. congruence.
Qed.


(** An inherited member of [items] has no [imageID]. *)
Lemma read_item_at k items id :
  k <> "toString" -> read k (item_at items id) = read k (items !! id).
Proof.
  intros _. unfold item_at. destruct (items !! id); [done|].
  by destruct (bool_decide _).
Qed.

(** What the handler has read when it reaches the query. *)
Lemma build_row_inr row data geometry :
  build_row (items srv) uuid session feature ip = inr (row, data, geometry) ->
  let properties := read "properties" (Some feature) in
  catalogued (items srv) uuid = true
  /\ truthy (read "step" properties) = true
  /\ ge0 (read "stepIndex" properties) = inr true
  /\ data = read "data" properties
  /\ geometry = read "geometry" (Some feature)
  /\ exists paired located,
       pairing (read "completed" properties) data = inr paired
       /\ locate feature geometry = inr located
       /\ row = {| Row.uuid := uuid;
                   Row.session := session;
                   Row.step := read "step" properties;
                   Row.step_index := read "stepIndex" properties;
                   Row.image_id := read "imageID" (items srv !! uuid);
                   Row.completed := paired.1;
                   Row.data := paired.2;
                   Row.client := object [("ip", ip)];
                   Row.geometry := located.1;
                   Row.centroid := located.2 |}.
Proof.
  unfold build_row. intros H.
  destruct (negb (catalogued (items srv) uuid)) eqn:K; [discriminate|].
  apply negb_false_iff in K.
  apply bind_inr in H as (image_id & E1 & H).
  apply bind_inr in H as (properties & E2 & H).
  apply bind_inr in H as (step & E3 & H).
  apply bind_inr in H as (stepIndex & E4 & H).
  apply bind_inr in H as (passes & C & H).
  destruct passes; [|discriminate]. cbn [negb] in H.
  assert (C1 : truthy step = true) by (destruct (truthy step); congruence).
  rewrite C1 in C.
  apply bind_inr in H as (completed & E5 & H).
  apply bind_inr in H as (data' & E6 & H).
  apply bind_inr in H as (paired & E7 & H).
  apply bind_inr in H as (geometry' & E8 & H).
  apply bind_inr in H as (located & E9 & H).
  injection H as <- <- <-.
  rewrite <- (read_item_at "imageID") by done.
  unfold read. rewrite E1, E2, E3, E4, E5, E6, E8. simpl.
  repeat split; try done. by exists paired, located.
Qed.









Lemma pairing_inr completed data paired :
  pairing completed data = inr paired -> paired.1 = truthy completed.
Proof. unfold pairing. repeat case_match; intros ?; by simplify_eq. Qed.

(** A step that is not completed is handed to the query without data. *)
Lemma in_progress_row_has_no_data row data geometry :
  build_row (items srv) uuid session feature ip = inr (row, data, geometry) ->
  Row.completed row = false -> Row.data row = None.
Proof.
  intros (_ & _ & _ & _ & _ & paired & located & P & _ & ->)%build_row_inr.
  simpl. unfold pairing in P. repeat case_match; by simplify_eq.
Qed.

(** C2, amended.  Whenever the handler answers 200, that is the submission
    passed validation and the query succeeded, every connected client is
    sent the feature of the submitted record, whether [completed] is true
    or false. *)
Theorem success_is_broadcast :
  status_of (response (submit srv fault now uuid session feature ip)) = Some 200 ->
  let properties := read "properties" (Some feature) in
  sent (submit srv fault now uuid session feature ip)
  = List.map
      (fun client =>
         (client,
          locationToFeature uuid
            (read "imageID" (items srv !! uuid))
            (read "step" properties)
            (truthy (read "completed" properties))
            (read "data" properties)
            (read "geometry" (Some feature))))
      (clients srv).
Proof.
  intros (row & data & geometry & db & B & _ & ->)%submit_success_inv.
  apply build_row_inr in B
    as (_ & _ & _ & -> & -> & paired & located & P%pairing_inr & _ & ->).
  simpl. unfold emitEvent, broadcast. simpl. by rewrite P.
Qed.

End Pipeline.

(** ** Credentials on the read endpoints *)

(** C10, amended.  On [GET /items/:uuid] and [GET /items/random] the answer
    is never a 401, whatever [jwt.verify] would say of the credential; a
    presented credential that is not the empty string is set on the response
    as it came; a fresh credential is signed when the header is absent and
    also when it is present but empty. *)
Theorem read_endpoints_credential `{platform : Platform} (KEY : string)
    (srv : Server) (authorization : option string) (randomString : string)
    (uuid : option string) :
  status_of (get_item KEY srv authorization randomString uuid).2 <> Some 401
  /\ (get_item KEY srv authorization randomString uuid).1
     = match authorization with
       | Some "" | None => jwt_sign (JObj [("session", JStr randomString)]) KEY
       | Some token => token
       end.
Proof.
  split.
  - unfold get_item, sendItem. simpl. repeat case_match; simpl; congruence.
  - unfold get_item, checkOrCreateToken. simpl.
    destruct authorization as [[|c token]|]; reflexivity.
Qed.

(** ** The handler at work *)

(** The scenario of the specification: the completed step with the point
    [[1, 2]] is stored with centroid [1,2] and sent to the observer. *)
Example completed_submission :
  let o := submit (platform := Reference.platform) Examples.fresh_server None 1
             "abc-123" Examples.session Examples.completed_feature Examples.ip in
  response o = success
  /\ store o !! Examples.key
     = Some {| Pg.step_index := 0; Pg.completed := true;
               Pg.image_id := Some "1234";
               Pg.date_created := 1; Pg.date_modified := 1;
               Pg.data := Some (JObj [("note", JStr "here")]);
               Pg.client := Some (JObj [("ip", JStr "10.0.0.1")]);
               Pg.geometry := Some Examples.point12;
               Pg.centroid := Some "1,2" |}
  /\ length (sent o) = 1%nat.
Proof. vm_compute. repeat split. Qed.

(** C2 as stated fails: a step submitted with [completed: false] is
    accepted and the observer is sent its feature. *)
Lemma in_progress_submission_is_broadcast :
  let o := submit (platform := Reference.platform) Examples.fresh_server None 1
             "abc-123" Examples.session Examples.progress_feature Examples.ip in
  truthy (read "completed" (read "properties" (Some Examples.progress_feature)))
  = false
  /\ response o = success
  /\ sent o
     = [ (1%nat,
          JObj [ ("type", JStr "Feature");
                 ("properties",
                   JObj [ ("uuid", JStr "abc-123");
                          ("imageId", JStr "1234");
                          ("step", JStr "locate");
                          ("completed", JBool false);
                          ("url", JStr "http://digitalcollections.nypl.org/items/abc-123") ]);
                 ("geometry", JNull) ]) ].
Proof. vm_compute. repeat split. Qed.

Lemma success_is_broadcast_witness :
  sent (submit (platform := Reference.platform) Examples.fresh_server None 1
          "abc-123" Examples.session Examples.progress_feature Examples.ip)
  = List.map
      (fun client =>
         (client,
          locationToFeature "abc-123"
            (read "imageID" (items Examples.fresh_server !! "abc-123"))
            (read "step" (read "properties" (Some Examples.progress_feature)))
            (truthy (read "completed"
                       (read "properties" (Some Examples.progress_feature))))
            (read "data" (read "properties" (Some Examples.progress_feature)))
            (read "geometry" (Some Examples.progress_feature))))
      (clients Examples.fresh_server).
Proof.
  apply (success_is_broadcast (platform := Reference.platform)).
  vm_compute. reflexivity.
Defined.

(** C3, at the failing input.  A step submitted with [completed: false] and
    the point [[1, 2]] as geometry is accepted, and its row is stored with
    the geometry and its centroid while [completed] is false. *)
Theorem in_progress_geometry_is_stored :
  let o := submit (platform := Reference.platform) Examples.fresh_server None 1
             "abc-123" Examples.session Examples.located_progress_feature
             Examples.ip in
  truthy (read "completed"
            (read "properties" (Some Examples.located_progress_feature))) = false
  /\ response o = success
  /\ store o !! Examples.key
     = Some {| Pg.step_index := 1; Pg.completed := false;
               Pg.image_id := Some "1234";
               Pg.date_created := 1; Pg.date_modified := 1;
               Pg.data := None;
               Pg.client := Some (JObj [("ip", JStr "10.0.0.1")]);
               Pg.geometry := Some Examples.point12;
               Pg.centroid := Some "1,2" |}.
Proof. vm_compute. repeat split. Qed.







(** C9, at the failing input.  The step is stored in progress, without
    geometry; the same step submitted with [completed: false] and the valid
    point [[1, 2]] passes the check on [completed] and [data], which does
    not look at the geometry, and is accepted; the stored row keeps its
    empty centroid where the centroid of the accepted point is [1,2]. *)
Theorem accepted_point_is_not_stored :
  let o := submit (platform := Reference.platform) Examples.progress_server None 2
             "abc-123" Examples.session Examples.located_progress_feature
             Examples.ip in
  read "geometry" (Some Examples.located_progress_feature)
  = Some Examples.point12
  /\ hint (Platform := Reference.platform) Examples.located_progress_feature = []
  /\ locate (platform := Reference.platform) Examples.located_progress_feature
       (Some Examples.point12)
     = inr (Some Examples.point12, Some "1,2")
  /\ response o = success
  /\ store o !! Examples.key = Some (Pg.inserted 1 Examples.first_progress)
  /\ Pg.centroid (Pg.inserted 1 Examples.first_progress) = None.
Proof. vm_compute. repeat split. Qed.

(** C10 as stated fails: an [Authorization] header that is present but
    empty is not echoed; a fresh credential is signed in its place. *)
Lemma empty_credential_is_replaced :
  (get_item (platform := Reference.platform) Examples.KEY Examples.fresh_server
     (Some "") "fresh" (Some "abc-123")).1
  = jwt_sign (Platform := Reference.platform)
      (JObj [("session", JStr "fresh")]) Examples.KEY
  /\ (get_item (platform := Reference.platform) Examples.KEY
        Examples.fresh_server (Some "") "fresh" (Some "abc-123")).1 <> "".
Proof. split; [reflexivity|]. vm_compute. discriminate. Qed.

(** * Further properties *)

(** ** The statement over time *)

Lemma commitStep_cases now x db :
  (db !! Pg.x_pkey x = None
   /\ Pg.commitStep now x db = inr (<[Pg.x_pkey x := Pg.inserted now x]> db))
  \/ (exists old, db !! Pg.x_pkey x = Some old /\ Pg.x_completed x = true
        /\ Pg.commitStep now x db
           = inr (<[Pg.x_pkey x := Pg.updated now x old]> db))
  \/ (exists old, db !! Pg.x_pkey x = Some old /\ Pg.x_completed x = false
        /\ Pg.commitStep now x db = inr db).
Proof.
  destruct (db !! Pg.x_pkey x) as [old|] eqn:E.
  - destruct (Pg.x_completed x) eqn:C; [right; left|right; right]; exists old.
    + split; [done|]. split; [done|]. by apply commitStep_completed.
    + split; [done|]. split; [done|]. by eapply commitStep_in_progress.
  - left. split; [done|]. by apply commitStep_absent.
Qed.

(** One commit keeps every stored row in place, with its [image_id], its
    [date_created] and, once set, its [completed] flag. *)
Lemma commitStep_keeps now x db db' k c :
  db !! k = Some c -> Pg.commitStep now x db = inr db' ->
  exists c', db' !! k = Some c'
             /\ Pg.date_created c' = Pg.date_created c
             /\ Pg.image_id c' = Pg.image_id c
             /\ (Pg.completed c = true -> Pg.completed c' = true).
Proof.
  intros L H.
  destruct (commitStep_cases now x db)
    as [[E R]|[(old & E & X & R)|(old & E & X & R)]];
    rewrite R in H; injection H as <-.
  - exists c. rewrite lookup_insert_ne; [done|]. congruence.
  - destruct (decide (Pg.x_pkey x = k)) as [<-|N].
    + rewrite E in L. injection L as ->. eexists.
      split; [apply lookup_insert_eq|]. by simpl.
    + exists c. by rewrite lookup_insert_ne.
  - by exists c.
Qed.

Lemma commits_keep cs : forall db db' k c,
  db !! k = Some c -> commits cs db = inr db' ->
  exists c', db' !! k = Some c'
             /\ Pg.date_created c' = Pg.date_created c
             /\ Pg.image_id c' = Pg.image_id c
             /\ (Pg.completed c = true -> Pg.completed c' = true).
Proof.
  induction cs as [|[now x] cs IH]; simpl; intros db db' k c L H.
  - injection H as <-. by exists c.
  - destruct (Pg.commitStep now x db) as [|db1] eqn:S; [discriminate|].
    destruct (commitStep_keeps _ _ _ _ _ _ L S) as (c1 & L1 & D1 & I1 & C1).
    destruct (IH _ _ _ _ L1 H) as (c' & L' & D' & I' & C').
    exists c'. split; [done|]. split; [congruence|]. split; [congruence|]. auto.
Qed.

(** X1.  On the table [createTable] declares the statement never fails,
    whatever is stored and whatever is submitted: an arbiter index is
    always found and the primary key is never violated.  So every sequence
    of commits goes through. *)
Theorem commits_never_fail (cs : list (Z * Pg.excluded)) (db : Pg.table) :
  exists db', commits cs db = inr db'.
Proof.
  revert db. induction cs as [|[now x] cs IH]; simpl; intros db; [by eexists|].
  destruct (commitStep_succeeds now x db) as [db1 ->]. apply IH.
Qed.

(** X2.  A sequence of commits leaves untouched every row whose triple none
    of the commits names. *)
Theorem commits_leave_other_triples (cs : list (Z * Pg.excluded))
    (db db' : Pg.table) (k : Pg.pkey) :
  Forall (fun c => Pg.x_pkey c.2 <> k) cs ->
  commits cs db = inr db' ->
  db' !! k = db !! k.
Proof.
  intros F. revert db. induction F as [|[now x] cs N F IH]; simpl; intros db H.
  - by injection H as <-.
  - destruct (Pg.commitStep now x db) as [|db1] eqn:S; [discriminate|].
    rewrite (IH _ H). eapply commitStep_other; [exact S|]. by intros ->.
Qed.

Lemma commits_leave_other_triples_witness :
  let x := Examples.step_commit "abc-123" "a" 7 true in
  let db' := <[("abc-123", "s1", "a") := Pg.updated 9 x (Examples.step_row 0 true 1)]>
               Examples.session_db in
  commits [(9, x)] Examples.session_db = inr db'
  /\ Pg.step_index <$> db' !! ("abc-123", "s1", "a") = Some 7
  /\ Examples.session_db !! ("def-456", "s1", "a")
     = Some (Examples.step_row 5 true 3)
  /\ db' !! ("def-456", "s1", "a") = Examples.session_db !! ("def-456", "s1", "a").
Proof.
  intros x db'.
  assert (C : commits [(9, x)] Examples.session_db = inr db').
  { simpl.
    rewrite (commitStep_completed 9 x Examples.session_db
               (Examples.step_row 0 true 1));
      [reflexivity|vm_compute; reflexivity|reflexivity]. }
  split; [exact C|].
  split; [vm_compute; reflexivity|].
  split; [vm_compute; reflexivity|].
  apply (commits_leave_other_triples [(9, x)] Examples.session_db db'
           ("def-456", "s1", "a")); [|exact C].
  repeat constructor. simpl. discriminate.
Defined.

(** X3.  A commit adds a row exactly when none is stored for its triple,
    and then stores the record as submitted, created and modified at the
    time of the commit; otherwise the number of rows stays as it is. *)
Theorem commit_adds_at_most_one_row (now : Z) (x : Pg.excluded)
    (db db' : Pg.table) :
  Pg.commitStep now x db = inr db' ->
  (db !! Pg.x_pkey x = None ->
   size db' = S (size db) /\ db' !! Pg.x_pkey x = Some (Pg.inserted now x))
  /\ (is_Some (db !! Pg.x_pkey x) -> size db' = size db).
Proof.
  intros H.
  destruct (commitStep_cases now x db)
    as [[E R]|[(old & E & X & R)|(old & E & X & R)]];
    rewrite R in H; injection H as <-; rewrite E.
  - split; [|by intros []].
    intros _. split; [by apply map_size_insert_None|apply lookup_insert_eq].
  - split; [done|]. intros _. by eapply map_size_insert_Some.
  - done.
Qed.

Lemma commit_adds_at_most_one_row_witness :
  size Examples.done_db = S (size (∅ : Pg.table))
  /\ Examples.done_db !! Pg.x_pkey Examples.first_completed
     = Some (Pg.inserted 1 Examples.first_completed).
Proof.
  refine (proj1 (commit_adds_at_most_one_row 1 Examples.first_completed ∅
                   Examples.done_db _) _).
  - rewrite commitStep_absent by apply lookup_empty. reflexivity.
  - apply lookup_empty.
Defined.

(** X4.  No sequence of commits deletes a row, and a stored row keeps the
    [image_id] and the [date_created] it was first stored with. *)
Theorem stored_rows_are_kept (cs : list (Z * Pg.excluded)) (db db' : Pg.table)
    (k : Pg.pkey) (c : Pg.columns) :
  db !! k = Some c ->
  commits cs db = inr db' ->
  exists c', db' !! k = Some c'
             /\ Pg.date_created c' = Pg.date_created c
             /\ Pg.image_id c' = Pg.image_id c.
Proof.
  intros L H. destruct (commits_keep cs _ _ _ _ L H) as (c' & ? & ? & ? & _).
  by exists c'.
Qed.

Lemma stored_rows_are_kept_witness :
  exists c',
    (<[Examples.key := Pg.updated 2 Examples.second_completed
                         (Pg.inserted 1 Examples.first_completed)]>
       Examples.done_db) !! Examples.key = Some c'
    /\ Pg.date_created c' = Pg.date_created (Pg.inserted 1 Examples.first_completed)
    /\ Pg.image_id c' = Pg.image_id (Pg.inserted 1 Examples.first_completed).
Proof.
  apply (stored_rows_are_kept [(2, Examples.second_completed)]
           Examples.done_db _ Examples.key
           (Pg.inserted 1 Examples.first_completed)).
  - apply lookup_singleton_eq.
  - simpl.
    rewrite (commitStep_completed 2 Examples.second_completed Examples.done_db
               (Pg.inserted 1 Examples.first_completed));
      [reflexivity|apply lookup_singleton_eq|reflexivity].
Defined.

(** X5.  The [completed] flag is forward-only: once the row of a triple is
    stored with [completed = true], it is stored with [completed = true]
    after any sequence of commits. *)
Theorem completed_is_forward_only (cs : list (Z * Pg.excluded))
    (db db' : Pg.table) (k : Pg.pkey) (c : Pg.columns) :
  db !! k = Some c ->
  Pg.completed c = true ->
  commits cs db = inr db' ->
  exists c', db' !! k = Some c' /\ Pg.completed c' = true.
Proof.
  intros L C H. destruct (commits_keep cs _ _ _ _ L H) as (c' & ? & _ & _ & ?).
  exists c'. auto.
Qed.

Lemma completed_is_forward_only_witness :
  exists c',
    Examples.done_db !! Examples.key = Some c' /\ Pg.completed c' = true.
Proof.
  apply (completed_is_forward_only [(2, Examples.second_progress)]
           Examples.done_db _ Examples.key
           (Pg.inserted 1 Examples.first_completed)).
  - apply lookup_singleton_eq.
  - reflexivity.
  - simpl.
    rewrite (commitStep_in_progress 2 Examples.second_progress Examples.done_db
               (Pg.inserted 1 Examples.first_completed));
      [reflexivity|apply lookup_singleton_eq|reflexivity].
Defined.

Lemma commitStep_timestamps t now x db db' :
  timestamps_ordered db -> not_after t db -> t <= now ->
  Pg.commitStep now x db = inr db' ->
  timestamps_ordered db' /\ not_after now db'.
Proof.
  intros O A T H.
  destruct (commitStep_cases now x db)
    as [[E R]|[(old & E & X & R)|(old & E & X & R)]];
    rewrite R in H; injection H as <-.
  - split; intros k c; rewrite lookup_insert; case_decide; intros L;
      simplify_eq; simpl; try lia.
    + by apply (O k).
    + specialize (A k c L). lia.
  - split; intros k c; rewrite lookup_insert; case_decide; intros L;
      simplify_eq; simpl.
    + specialize (A _ _ E). lia.
    + by apply (O k).
    + specialize (A _ _ E). lia.
    + specialize (A k c L). lia.
  - split; [done|]. intros k c L. specialize (A k c L). lia.
Qed.

(** X6.  When the clock does not run backwards, every stored row was
    created no later than it was last modified: the property holds after
    any sequence of commits at non-decreasing times, none before [t], on a
    table that has it and holds no row created after [t]. *)
Theorem timestamps_stay_ordered (t : Z) (cs : list (Z * Pg.excluded))
    (db db' : Pg.table) :
  timestamps_ordered db ->
  not_after t db ->
  Sorted Z.le (t :: cs.*1) ->
  commits cs db = inr db' ->
  timestamps_ordered db'.
Proof.
  revert t db. induction cs as [|[now x] cs IH]; simpl; intros t db O A S H.
  - by injection H as <-.
  - destruct (Pg.commitStep now x db) as [|db1] eqn:C; [discriminate|].
    apply Sorted_inv in S as [S Hd]. apply HdRel_inv in Hd.
    destruct (commitStep_timestamps t now x db db1 O A Hd C) as [O1 A1].
    by apply (IH now db1).
Qed.

Lemma timestamps_stay_ordered_witness :
  timestamps_ordered
    (<[Examples.key := Pg.updated 2 Examples.second_completed
                         (Pg.inserted 1 Examples.first_completed)]>
       Examples.done_db).
Proof.
  apply (timestamps_stay_ordered 1 [(2, Examples.second_completed)]
           Examples.done_db).
  - intros k c L. unfold Examples.done_db in L.
    apply lookup_singleton_Some in L as [<- <-]. simpl. lia.
  - intros k c L. unfold Examples.done_db in L.
    apply lookup_singleton_Some in L as [<- <-]. simpl. lia.
  - simpl. repeat constructor. lia.
  - simpl.
    rewrite (commitStep_completed 2 Examples.second_completed Examples.done_db
               (Pg.inserted 1 Examples.first_completed));
      [reflexivity|apply lookup_singleton_eq|reflexivity].
Defined.

(** X7.  Committing the same record a second time changes nothing but
    [date_modified]: the row of the triple keeps every other column, the
    other rows are untouched, and when the record is not completed the
    table is left exactly as it was. *)
Theorem commit_again_changes_only_date_modified (now now' : Z)
    (x : Pg.excluded) (db db1 db2 : Pg.table) :
  Pg.commitStep now x db = inr db1 ->
  Pg.commitStep now' x db1 = inr db2 ->
  (exists c1 c2, db1 !! Pg.x_pkey x = Some c1
                 /\ db2 !! Pg.x_pkey x = Some c2
                 /\ same_but_modified c1 c2)
  /\ (forall k, k <> Pg.x_pkey x -> db2 !! k = db1 !! k)
  /\ (Pg.x_completed x = false -> db2 = db1).
Proof.
  intros H1 H2.
  assert (exists c1, db1 !! Pg.x_pkey x = Some c1
                     /\ (Pg.x_completed x = true ->
                         Pg.step_index c1 = Pg.x_step_index x
                         /\ Pg.completed c1 = true
                         /\ Pg.data c1 = Pg.x_data x
                         /\ Pg.client c1 = Pg.x_client x
                         /\ Pg.geometry c1 = Pg.x_geometry x
                         /\ Pg.centroid c1 = Pg.x_centroid x))
    as (c1 & L1 & V).
  { destruct (commitStep_cases now x db)
      as [[E R]|[(old & E & X & R)|(old & E & X & R)]];
      rewrite R in H1; injection H1 as <-.
    - eexists. split; [apply lookup_insert_eq|]. intros X. by simpl.
    - eexists. split; [apply lookup_insert_eq|]. intros _. by simpl.
    - exists old. split; [done|]. congruence. }
  split; [|split].
  - destruct (Pg.x_completed x) eqn:X.
    + rewrite (commitStep_completed now' x db1 c1 L1 X) in H2.
      injection H2 as <-. exists c1. eexists.
      split; [done|]. split; [apply lookup_insert_eq|].
      destruct (V eq_refl) as (? & ? & ? & ? & ? & ?).
      unfold same_but_modified. simpl. repeat split; congruence.
    + rewrite (commitStep_in_progress now' x db1 c1 L1 X) in H2.
      injection H2 as <-. exists c1, c1. by repeat split.
  - intros k N. by eapply commitStep_other.
  - intros X. rewrite (commitStep_in_progress now' x db1 c1 L1 X) in H2.
    by injection H2 as <-.
Qed.

Lemma commit_again_changes_only_date_modified_witness :
  (exists c1 c2,
     Examples.done_db !! Pg.x_pkey Examples.first_completed = Some c1
     /\ (<[Pg.x_pkey Examples.first_completed
           := Pg.updated 2 Examples.first_completed
                (Pg.inserted 1 Examples.first_completed)]> Examples.done_db)
          !! Pg.x_pkey Examples.first_completed = Some c2
     /\ same_but_modified c1 c2)
  /\ (forall k, k <> Pg.x_pkey Examples.first_completed ->
        (<[Pg.x_pkey Examples.first_completed
           := Pg.updated 2 Examples.first_completed
                (Pg.inserted 1 Examples.first_completed)]> Examples.done_db) !! k
        = Examples.done_db !! k)
  /\ (Pg.x_completed Examples.first_completed = false ->
      <[Pg.x_pkey Examples.first_completed
        := Pg.updated 2 Examples.first_completed
             (Pg.inserted 1 Examples.first_completed)]> Examples.done_db
      = Examples.done_db).
Proof.
  apply (commit_again_changes_only_date_modified 1 2 Examples.first_completed ∅).
  - rewrite commitStep_absent by apply lookup_empty. reflexivity.
  - rewrite (commitStep_completed 2 Examples.first_completed Examples.done_db
               (Pg.inserted 1 Examples.first_completed));
      [reflexivity|apply lookup_singleton_eq|reflexivity].
Defined.

(** ** The handler, further *)

Section Submission.
Context {platform : Platform}.
Variables (srv : Server) (fault : option string) (now : Z).
Variables (uuid : string) (session : Value) (feature : JSON) (ip : Value).

Lemma bind_values_inr row x :
  bind_values row = inr x ->
  text_param (Row.session row) = Some (Pg.x_session x)
  /\ text_param (Row.step row) = Some (Pg.x_step x)
  /\ (exists v, Row.step_index row = Some v /\ v <> JNull
                /\ pg_integer v = inr (Pg.x_step_index x))
  /\ Pg.x_uuid x = Row.uuid row
  /\ Pg.x_image_id x = text_param (Row.image_id row)
  /\ Pg.x_completed x = Row.completed row
  /\ Pg.x_data x = Row.data row
  /\ Pg.x_client x = Some (Row.client row)
  /\ Pg.x_geometry x = Row.geometry row
  /\ Pg.x_centroid x = Row.centroid row.
Proof.
  unfold bind_values. intros H.
  repeat case_match; simplify_eq; simpl; repeat split; eauto.
Qed.

Lemma executeQuery_commit row db db' :
  executeQuery fault now row db = inr db' ->
  exists x, bind_values row = inr x /\ Pg.commitStep now x db = inr db'.
Proof.
  unfold executeQuery. intros H. repeat case_match; simplify_eq. eauto.
Qed.

Lemma locate_inr geometry located :
  locate feature geometry = inr located ->
  located.1 = if truthy geometry then geometry else None.
Proof.
  unfold locate, bind. intros H.
  repeat case_match; simplify_eq; reflexivity.
Qed.

(** The record a successful submission hands to the statement. *)
Lemma submit_success_commit :
  status_of (response (submit srv fault now uuid session feature ip)) = Some 200 ->
  let properties := read "properties" (Some feature) in
  exists x located,
    Pg.commitStep now x (locations srv)
    = inr (store (submit srv fault now uuid session feature ip))
    /\ Pg.x_uuid x = uuid
    /\ text_param session = Some (Pg.x_session x)
    /\ text_param (read "step" properties) = Some (Pg.x_step x)
    /\ (exists v, read "stepIndex" properties = Some v /\ v <> JNull
                  /\ pg_integer v = inr (Pg.x_step_index x))
    /\ Pg.x_image_id x = text_param (read "imageID" (items srv !! uuid))
    /\ Pg.x_completed x = truthy (read "completed" properties)
    /\ Pg.x_data x = (if truthy (read "completed" properties)
                      then read "data" properties else None)
    /\ Pg.x_client x = Some (object [("ip", ip)])
    /\ Pg.x_geometry x = (if truthy (read "geometry" (Some feature))
                          then read "geometry" (Some feature) else None)
    /\ locate feature (read "geometry" (Some feature)) = inr located
    /\ Pg.x_centroid x = located.2.
Proof.
  intros (row & data & geometry & db & B & Q & ->)%submit_success_inv properties.
  apply build_row_inr in B
    as (_ & _ & _ & -> & -> & paired & located & P & L & ->).
  apply executeQuery_commit in Q as (x & V & Q).
  apply bind_values_inr in V
    as (Es & Est & Ei & Eu & Em & Ec & Ed & Ecl & Eg & Ece).
  simpl in *. exists x, located.
  rewrite Ec, Ed, Eg, Ece, (locate_inr _ _ L).
  pose proof (pairing_inr _ _ _ P) as P1. fold properties in P, P1.
  assert (paired.2 = if truthy (read "completed" properties)
                     then read "data" properties else None) as ->.
  { unfold pairing in P. repeat case_match; by simplify_eq. }
  by repeat split.
Qed.

(** X8.  The handler answers 200, 404, 406 or 500, or throws; and unless it
    answers 200 the table is left as it was and nothing is sent to the
    observers. *)
Theorem submit_answers_or_leaves_no_trace :
  status_of (response (submit srv fault now uuid session feature ip))
    ∈ [Some 200; Some 404; Some 406; Some 500; None]
  /\ (status_of (response (submit srv fault now uuid session feature ip))
        <> Some 200 ->
      store (submit srv fault now uuid session feature ip) = locations srv
      /\ sent (submit srv fault now uuid session feature ip) = []).
Proof.
  split; [|apply submit_failure].
  unfold submit.
  destruct (build_row _ _ _ _ _) as [r|[[row data] geometry]] eqn:B.
  - apply build_row_early in B as [E|[E|E]]; simpl; rewrite E; set_solver.
  - destruct (executeQuery _ _ _ _); simpl; set_solver.
Qed.

(** X9.  A submission changes no row but the one of its own triple: the
    item of the path, the session of the credential and the submitted step.
    Rows of other items, other sessions and other steps are as before. *)
Theorem submit_touches_its_triple_only (k : Pg.pkey) :
  (forall s st,
     text_param session = Some s ->
     text_param (read "step" (read "properties" (Some feature))) = Some st ->
     k <> (uuid, s, st)) ->
  store (submit srv fault now uuid session feature ip) !! k = locations srv !! k.
Proof.
  intros N.
  destruct (decide (status_of (response (submit srv fault now uuid session
                                           feature ip)) = Some 200)) as [S|S].
  - destruct (submit_success_commit S)
      as (x & located & Q & Eu & Es & Est & _).
    eapply commitStep_other; [exact Q|].
    unfold Pg.x_pkey. rewrite Eu. by apply N.
  - by destruct (submit_failure _ _ _ _ _ _ _ S) as [-> _].
Qed.

(** X10.  An accepted submission with [completed] truthy is stored as
    submitted: the row of its triple holds [completed = true], the submitted
    [data], the submitted geometry (none when [geometry] is falsy), the
    [stepIndex] as the database reads it, the client's address, and the time
    of the commit as [date_modified]. *)
Theorem completed_submission_is_stored :
  status_of (response (submit srv fault now uuid session feature ip)) = Some 200 ->
  truthy (read "completed" (read "properties" (Some feature))) = true ->
  let properties := read "properties" (Some feature) in
  exists s st v index c,
    text_param session = Some s
    /\ text_param (read "step" properties) = Some st
    /\ read "stepIndex" properties = Some v
    /\ pg_integer v = inr index
    /\ store (submit srv fault now uuid session feature ip) !! (uuid, s, st)
       = Some c
    /\ Pg.completed c = true
    /\ Pg.step_index c = index
    /\ Pg.data c = read "data" properties
    /\ Pg.geometry c = (if truthy (read "geometry" (Some feature))
                        then read "geometry" (Some feature) else None)
    /\ Pg.client c = Some (object [("ip", ip)])
    /\ Pg.date_modified c = now.
Proof.
  intros S C properties.
  destruct (submit_success_commit S)
    as (x & located & Q & Eu & Es & Est & (v & Ev & _ & Ei) & _ & Ec & Ed
        & Ecl & Eg & _).
  subst properties. rewrite C in Ec, Ed.
  exists (Pg.x_session x), (Pg.x_step x), v, (Pg.x_step_index x).
  assert (K : Pg.x_pkey x = (uuid, Pg.x_session x, Pg.x_step x))
    by (unfold Pg.x_pkey; by rewrite Eu).
  destruct (commitStep_cases now x (locations srv))
    as [[E R]|[(old & E & X & R)|(old & E & X & R)]];
    rewrite R in Q; injection Q as Q; [| |congruence];
    rewrite <- Q, <- K; eexists;
    (split; [done|]); (split; [done|]); (split; [done|]); (split; [done|]);
    (split; [apply lookup_insert_eq|]); simpl; by repeat split.
Qed.

(** X11.  [null >= 0] holds: a submission whose [stepIndex] is [null]
    passes validation, and is then refused by the [NOT NULL] column: the
    answer is 500, not 406, the table is as before and nothing is sent. *)
Theorem null_step_index_is_a_persistence_error row data geometry :
  read "stepIndex" (read "properties" (Some feature)) = Some JNull ->
  build_row (items srv) uuid session feature ip = inr (row, data, geometry) ->
  ge0 (Some JNull) = inr true
  /\ status_of (response (submit srv fault now uuid session feature ip)) = Some 500
  /\ store (submit srv fault now uuid session feature ip) = locations srv
  /\ sent (submit srv fault now uuid session feature ip) = [].
Proof.
  intros N B. split; [reflexivity|].
  assert (Q : exists message,
             executeQuery fault now row (locations srv) = inl message).
  { destruct (executeQuery _ _ _ _) as [message|db] eqn:Q; [by eexists|].
    apply executeQuery_commit in Q as (x & V & _).
    apply bind_values_inr in V as (_ & _ & (v & Ev & Nv & _) & _).
    apply build_row_inr in B as (_ & _ & _ & _ & _ & ? & ? & _ & _ & ->).
    simpl in Ev. congruence. }
  destruct Q as [message Q]. unfold submit. rewrite B, Q. by simpl.
Qed.

(** X12.  Every submission keeps the table free of [data] on rows that are
    not completed: if no stored row with [completed = false] carries
    [data], none does after the submission. *)
Theorem submit_keeps_data_on_completed_rows :
  data_only_when_completed (locations srv) ->
  data_only_when_completed (store (submit srv fault now uuid session feature ip)).
Proof.
  intros I.
  destruct (decide (status_of (response (submit srv fault now uuid session
                                           feature ip)) = Some 200)) as [S|S].
  - destruct (submit_success_commit S)
      as (x & located & Q & _ & _ & _ & _ & _ & Ec & Ed & _).
    destruct (commitStep_cases now x (locations srv))
      as [[E R]|[(old & E & X & R)|(old & E & X & R)]];
      rewrite R in Q; injection Q as Q; rewrite <- Q; [| |done];
      intros k c; rewrite lookup_insert; case_decide; intros L C;
      simplify_eq; simpl in *; try (by eapply I).
    + rewrite Ed. by rewrite Ec in C; rewrite C.
    + congruence.
  - by destruct (submit_failure _ _ _ _ _ _ _ S) as [-> _].
Qed.

(** X13.  Without a credential that [jwt.verify] accepts (no header, an
    empty header, or a token that fails verification) a [POST /items/:uuid]
    is answered 401 with the message "Not authorized", unless the body
    parser, which runs first, has refused the body: a JSON text that is no
    object and no array is answered 400, and a body the parser cannot read
    by the parser's status.  In every case no row is written and nothing is
    sent. *)
Theorem post_needs_a_verified_credential (error_page : Z -> JSON)
    (KEY : string) (authorization : option string) (body : RequestBody) :
  authorization = None
  \/ authorization = Some ""
  \/ (exists token, authorization = Some token /\ jwt_verify token KEY = None) ->
  post_request error_page KEY srv fault now authorization uuid body ip
  = {| response :=
         match body with
         | NoJson | Json (JObj _) | Json (JArr _) =>
             Send 401 (JObj [("result", JStr "error");
                             ("message", JStr "Not authorized")])
         | Json _ => Send 400 (error_page 400)
         | Refused status => Send status (error_page status)
         end;
       store := locations srv;
       sent := [] |}.
Proof.
  intros H.
  assert (R : forall parsed,
             post_item KEY srv fault now authorization uuid parsed ip
             = {| response := error 401 (JStr "Not authorized");
                  store := locations srv;
                  sent := [] |}).
  { intros parsed. unfold post_item, checkToken.
    destruct H as [->|[->|(token & -> & V)]]; [done|done|].
    rewrite V. by destruct (truthy _). }
  unfold post_request. destruct body as [|[]|]; simpl; by rewrite ?R.
Qed.

(** X14.  A credential issued by the read endpoints opens the submission
    endpoint: when [jwt.verify] gives back the session that [jwt.sign]
    signed, the credential set on a first read without header is echoed on
    later reads, is accepted by [checkToken] with the session drawn at
    issue, and a submission under it is handled under that session. *)
Theorem issued_credential_is_accepted (KEY randomString later : string)
    (decoded : JSON) :
  jwt_sign (JObj [("session", JStr randomString)]) KEY <> "" ->
  jwt_verify (jwt_sign (JObj [("session", JStr randomString)]) KEY) KEY
  = Some decoded ->
  member "session" (Some decoded) = inr (Some (JStr randomString)) ->
  let token := checkOrCreateToken KEY None randomString in
  checkOrCreateToken KEY (Some token) later = token
  /\ checkToken KEY (Some token) = inr (Some (JStr randomString))
  /\ post_item KEY srv fault now (Some token) uuid feature ip
     = submit srv fault now uuid (Some (JStr randomString)) feature ip.
Proof.
  intros N V M token.
  assert (T : truthy (Some (JStr token)) = true).
  { simpl. apply negb_true_iff, String.eqb_neq. exact N. }
  assert (C : checkToken KEY (Some token) = inr (Some (JStr randomString))).
  { unfold checkToken. rewrite T. unfold token, checkOrCreateToken.
    by rewrite V. }
  split; [|split; [exact C|]].
  - unfold checkOrCreateToken at 1. by rewrite T.
  - unfold post_item. by rewrite C.
Qed.

End Submission.

(** ** The read endpoints, further *)

Section Locations.
Variable db : Pg.table.

(** X15.  While no stored row is completed, [locationsQuery] returns
    nothing: steps in progress alone put no record on the map. *)
Theorem no_completed_step_no_location :
  (forall k c, db !! k = Some c -> Pg.completed c = false) ->
  Query.locationsQuery db = [].
Proof.
  intros H. apply Permutation_nil_r. unfold Query.locationsQuery.
  rewrite merge_sort_Permutation.
  rewrite (elem_of_nil_inv (Query.join db)); [done|].
  intros j (_ & _ & _ & (k & c & L & C & _) & _)%elem_of_join.
  rewrite (H k c L) in C. discriminate.
Qed.

(** X16.  Every item and session with a completed step is on the map: for
    each stored completed row, [locationsQuery] returns a completed record
    of the same item and session whose [step_index] is at least that of the
    row. *)
Theorem completed_step_is_located (k : Pg.pkey) (c : Pg.columns) :
  db !! k = Some c ->
  Pg.completed c = true ->
  exists j, j ∈ Query.locationsQuery db
            /\ (Query.l_key j).1 = k.1
            /\ Pg.completed (Query.l j) = true
            /\ Pg.step_index c <= Pg.step_index (Query.l j).
Proof.
  intros L C.
  assert (exists m, (k.1, m) ∈ Query.subquery db) as [m Hm].
  { unfold Query.subquery.
    set (done := filter _ (Query.rows db)).
    assert (Hin : (k, c) ∈ filter (fun r => Query.in_group k.1 r = true) done).
    { apply list_elem_of_filter. split.
      { unfold Query.in_group. by apply bool_decide_eq_true. }
      apply list_elem_of_filter. split; [done|]. by apply elem_of_rows. }
    destruct (MAX_is_Some
                (map (fun r : Pg.pkey * Pg.columns => Pg.step_index r.2)
                   (filter (fun r => Query.in_group k.1 r = true) done))
                (Pg.step_index c)) as [m M].
    { apply list_elem_of_fmap. by exists (k, c). }
    exists m. apply list_elem_of_omap. exists k.1. split.
    - apply elem_of_remove_dups, list_elem_of_fmap. exists (k, c).
      split; [done|]. apply list_elem_of_filter. split; [done|].
      by apply elem_of_rows.
    - by rewrite M. }
  pose proof Hm as [(k' & c' & L' & C' & G' & S') Hle]%elem_of_subquery.
  exists (Query.mkJoined k.1.1 k.1.2 m k' c'). split; [|split; [|split]].
  - unfold Query.locationsQuery. rewrite merge_sort_Permutation.
    apply elem_of_join. simpl. unfold of_pair in *.
    split; [done|]. split; [by destruct k as [[]]|]. split; [done|].
    apply elem_of_subquery. by destruct k as [[]].
  - exact G'.
  - exact C'.
  - simpl. rewrite S'. by apply (Hle k c).
Qed.

(** X17.  [/locations/latest] answers with at most [n] = 100 records, all
    of them records of [/locations], and every record it leaves out was
    modified no later than each record it returns. *)
Theorem latest_locations_are_the_newest (n : nat) :
  exists rows,
    get_locations None (Some n) db = Send 200 (locationsToGeoJson rows)
    /\ (length rows <= n)%nat
    /\ (forall j, j ∈ rows -> j ∈ Query.locationsQuery db)
    /\ (forall j j', j ∈ rows -> j' ∈ Query.locationsQuery db -> j' ∉ rows ->
          Pg.date_modified (Query.l j') <= Pg.date_modified (Query.l j)).
Proof.
  exists (take n (Query.locationsQuery db)). split; [reflexivity|].
  split; [rewrite length_take; lia|]. split.
  - intros j Hj. by apply (subseteq_take n (Query.locationsQuery db)).
  - intros j j' Hj Hj' N.
    assert (S : StronglySorted Query.newer_first
                  (take n (Query.locationsQuery db)
                   ++ drop n (Query.locationsQuery db))).
    { rewrite take_drop. unfold Query.locationsQuery.
      apply StronglySorted_merge_sort; [|apply _].
      intros a b d. unfold Query.newer_first. lia. }
    rewrite <- (take_drop n (Query.locationsQuery db)) in Hj'.
    apply elem_of_app in Hj' as [?|Hd]; [done|].
    by apply (StronglySorted_app_1_elem_of _ _ _ j j' S).
Qed.

End Locations.

Lemma no_completed_step_no_location_witness :
  Query.locationsQuery Examples.progress_db = [].
Proof.
  apply (no_completed_step_no_location Examples.progress_db).
  intros k c L. unfold Examples.progress_db in L.
  apply lookup_singleton_Some in L as [_ <-]. reflexivity.
Defined.

Lemma completed_step_is_located_witness :
  exists j, j ∈ Query.locationsQuery Examples.done_db
            /\ (Query.l_key j).1 = Examples.key.1
            /\ Pg.completed (Query.l j) = true
            /\ Pg.step_index (Pg.inserted 1 Examples.first_completed)
               <= Pg.step_index (Query.l j).
Proof.
  apply (completed_step_is_located Examples.done_db Examples.key
           (Pg.inserted 1 Examples.first_completed)).
  - apply lookup_singleton_eq.
  - reflexivity.
Defined.


(** X19.  On a catalog whose keys are not empty and whose items are truthy,
    [GET /items/random] answers 200 with an item of the catalog whenever
    the draw falls on a key, and 404 when it falls on none, as it does on
    an empty catalog. *)
Theorem random_item_is_of_the_catalog `{platform : Platform} (KEY : string)
    (srv : Server) (authorization : option string) (randomString : string)
    (draw : nat) :
  (forall k v, items srv !! k = Some v -> k <> "" /\ truthy (Some v) = true) ->
  ((draw < length (uuids (items srv)))%nat ->
   exists k item,
     items srv !! k = Some item
     /\ (get_random_item KEY srv authorization randomString draw).2
        = Send 200 item)
  /\ ((length (uuids (items srv)) <= draw)%nat ->
      (get_random_item KEY srv authorization randomString draw).2
      = error 404 (JStr "Not found")).
Proof.
  intros W. unfold get_random_item, get_item. simpl. split.
  - intros D. destruct (lookup_lt_is_Some_2 _ _ D) as [k Hk]. rewrite Hk.
    assert (k ∈ uuids (items srv)) as Hin by (by eapply list_elem_of_lookup_2).
    apply list_elem_of_fmap in Hin as ([k' item] & -> & Hin).
    apply elem_of_map_to_list in Hin.
    destruct (W _ _ Hin) as [N T].
    exists k', item. split; [done|].
    unfold sendItem, catalogued, item_at. cbn [fst]. rewrite Hin, T.
    apply String.eqb_neq in N. cbn [truthy]. by rewrite N.
  - intros D. by rewrite (lookup_ge_None_2 _ _ D).
Qed.

Lemma random_item_is_of_the_catalog_witness :
  exists k item,
    items Examples.fresh_server !! k = Some item
    /\ (get_random_item (platform := Reference.platform) Examples.KEY
          Examples.fresh_server None "fresh" 0).2 = Send 200 item.
Proof.
  refine (proj1 (random_item_is_of_the_catalog (platform := Reference.platform)
                   Examples.KEY Examples.fresh_server None "fresh" 0%nat _) _).
  - intros k v L. unfold Examples.fresh_server, Examples.catalog in L.
    simpl in L.
    apply lookup_insert_Some in L as [[<- <-]|[_ L]]; [done|].
    apply lookup_singleton_Some in L as [<- <-]. done.
  - vm_compute. lia.
Defined.

(** ** The catalog *)

Lemma assoc_filter_ne k q kvs :
  q <> k -> assoc q (filter (fun m : string * JSON => m.1 <> k) kvs) = assoc q kvs.
Proof.
  intros N. induction kvs as [|[k' j'] kvs IH]; [done|].
  rewrite filter_cons. simpl. case_decide as D; simpl.
  - by rewrite IH.
  - simpl in D. subst k'.
    apply String.eqb_neq in N. by rewrite N.
Qed.

Lemma assoc_filter_eq k kvs :
  assoc k (filter (fun m : string * JSON => m.1 <> k) kvs) = None.
Proof.
  induction kvs as [|[k' j'] kvs IH]; [done|].
  rewrite filter_cons. simpl. case_decide as D; simpl; [|done].
  apply not_eq_sym, String.eqb_neq in D. by rewrite D.
Qed.

Lemma assoc_set_member_eq k v kvs : assoc k (set_member k v kvs) = v.
Proof.
  induction kvs as [|[k' j'] kvs IH]; simpl.
  - destruct v; simpl; [|done]. by rewrite String.eqb_refl.
  - destruct (String.eqb k k') eqn:E; simpl.
    + destruct v; simpl; [by rewrite String.eqb_refl|apply assoc_filter_eq].
    + by rewrite E.
Qed.

Lemma assoc_set_member_ne k q v kvs :
  q <> k -> assoc q (set_member k v kvs) = assoc q kvs.
Proof.
  intros N. pose proof N as N'. apply String.eqb_neq in N'.
  induction kvs as [|[k' j'] kvs IH]; simpl.
  - destruct v; simpl; [|done]. by rewrite N'.
  - destruct (String.eqb k k') eqn:E; simpl.
    + apply String.eqb_eq in E. subst k'. rewrite N'.
      destruct v; simpl; [rewrite N'|]; by apply assoc_filter_ne.
    + by rewrite IH.
Qed.

Section Catalog_entries.
Context {platform : Platform}.
Variable Array_includes : list JSON -> string -> Handler bool.

Lemma filter_links_inr links : forall kept,
  filter_links Array_includes links = inr kept ->
  forall link, link ∈ kept ->
    link ∈ links /\ includes Array_includes "&t=w&" link = inr true.
Proof.
  induction links as [|l links IH]; simpl; intros kept H link Hin.
  - injection H as <-. inversion Hin.
  - apply bind_inr in H as (keep & K & H).
    apply bind_inr in H as (rest & R & H). injection H as <-.
    destruct keep.
    + apply elem_of_cons in Hin as [->|Hin].
      * split; [left|done].
      * destruct (IH _ R _ Hin). split; [by right|done].
    + destruct (IH _ R _ Hin). split; [by right|done].
Qed.

(** The head of the kept links is the first marked link. *)
Lemma filter_links_head links : forall kept,
  filter_links Array_includes links = inr kept ->
  first_marked Array_includes links (head kept).
Proof.
  induction links as [|l links IH]; simpl; intros kept H.
  - injection H as <-. left. split; [done|]. intros link Hin. inversion Hin.
  - apply bind_inr in H as (keep & K & H).
    apply bind_inr in H as (rest & R & H). injection H as <-.
    destruct keep.
    + right. exists 0%nat, l. repeat split; try done. intros j earlier Hj. lia.
    + destruct (IH _ R) as [[E A]|(i & link & L & E & M & A)].
      * left. split; [done|]. intros link [->|Hin]%elem_of_cons; [done|].
        by apply A.
      * right. exists (S i), link. repeat split; try done.
        intros [|j] earlier Hj; simpl; [by intros [= <-]|].
        apply A. lia.
Qed.

Lemma add_item_entry flat item items items' :
  add_item Array_includes item items = inr items' ->
  item ∈ flat ->
  exists k entry,
    catalog_entry Array_includes flat k entry
    /\ ((k = "__proto__"
         /\ entries items' = entries items /\ prototype items' = Some entry)
        \/ (k <> "__proto__"
            /\ entries items' = <[k := entry]> (entries items)
            /\ prototype items' = prototype items)).
Proof.
  unfold add_item. intros H Hin.
  destruct item as [| | | | |kvs]; try discriminate.
  destruct (assoc "imageLink" kvs) as [[| | | |links|]|] eqn:A; try discriminate.
  apply bind_inr in H as (kept & F & H).
  apply bind_inr in H as (key & K & H).
  exists key, (JObj (set_member "imageLink" (head kept) kvs)). split.
  - exists (set_member "imageLink" (head kept) kvs), kvs, links.
    split; [done|]. split; [done|]. split; [done|]. split; [done|].
    split; [|split].
    + intros q N. by apply assoc_set_member_ne.
    + rewrite assoc_set_member_eq. by apply filter_links_head.
    + rewrite assoc_set_member_eq. intros s E.
      destruct kept as [|link kept]; [discriminate|]. injection E as ->.
      destruct (filter_links_inr _ _ F (JStr s) ltac:(left)) as [_ I].
      simpl in I. injection I as I. unfold String_includes in I.
      destruct (index 0 "&t=w&" s) as [m|] eqn:X; [|discriminate].
      exists m. by apply index_correct1 in X.
  - destruct (String.eqb key "__proto__") eqn:P; injection H as <-; simpl.
    + left. by apply String.eqb_eq in P.
    + right. by apply String.eqb_neq in P.
Qed.

Lemma add_items_entries all flat : forall items items',
  add_items Array_includes flat items = inr items' ->
  (forall x, x ∈ flat -> x ∈ all) ->
  (forall k item, entries items !! k = Some item ->
                  k <> "__proto__" /\ catalog_entry Array_includes all k item) ->
  (forall item, prototype items = Some item ->
                catalog_entry Array_includes all "__proto__" item) ->
  (forall k item, entries items' !! k = Some item ->
                  k <> "__proto__" /\ catalog_entry Array_includes all k item)
  /\ (forall item, prototype items' = Some item ->
                   catalog_entry Array_includes all "__proto__" item).
Proof.
  induction flat as [|x flat IH]; cbn [add_items]; intros items items' H S I J.
  - by injection H as <-.
  - apply bind_inr in H as (imageLink & M & H).
    assert (S' : forall y, y ∈ flat -> y ∈ all) by (intros; apply S; by right).
    destruct (truthy imageLink) eqn:T; [|by apply (IH _ _ H S')].
    apply bind_inr in H as (items1 & A & H).
    destruct (add_item_entry all x items items1 A) as (k1 & e1 & E1 & C).
    { apply S. left. }
    apply (IH _ _ H S').
    + destruct C as [(_ & -> & _)|(N & -> & _)]; [done|].
      intros k item. rewrite lookup_insert. case_decide; [|by apply I].
      intros [= <-]. by subst.
    + destruct C as [(-> & _ & ->)|(_ & _ & ->)]; [|done].
      by intros item [= <-].
Qed.

(** X20.  Every entry of the loaded catalog is one of the listed objects
    whose [imageLink] was an array of links; it is stored under its own
    [uuid], which is not [__proto__], with its other members as listed; and
    its [imageLink] is the first of its links that includes [&t=w&], or is
    absent when none of them does (for a link that is a string, the marker
    is a substring of it).  A listed object whose [uuid] is [__proto__] is no
    entry: it becomes the prototype of [items], changed in the same way. *)
Theorem loaded_items_are_catalog_entries (flat : list JSON) (items : Loading) :
  load_items Array_includes flat = inr items ->
  (forall k item,
     entries items !! k = Some item ->
     k <> "__proto__" /\ catalog_entry Array_includes flat k item)
  /\ (forall item,
        prototype items = Some item ->
        catalog_entry Array_includes flat "__proto__" item).
Proof.
  intros H.
  apply (add_items_entries flat flat {| entries := ∅; prototype := None |}
           items H); [done| |done].
  intros k item L. simpl in L. by rewrite lookup_empty in L.
Qed.

End Catalog_entries.

(** ** The MODS proxy *)

Section Mods_answers.
Variable res_send : JSON -> Response.
Variable request : string -> string -> Value * Value.

Lemma member_truthy k v : truthy v = true -> member k v = inr (read k v).
Proof. intros T. apply member_read. by destruct v as [[]|]. Qed.

Lemma read_falsy k v : truthy v = false -> read k v = None.
Proof. by destruct v as [[]|]. Qed.

(** The chain of [&&] reads no member of a falsy value, and is truthy
    exactly when [body.nyplAPI.response.mods] is read and truthy. *)
Lemma mods_of_found body :
  exists found,
    mods_of body = inr found
    /\ truthy found
       = truthy (read "mods" (read "response" (read "nyplAPI" body)))
    /\ (truthy found = true ->
        found = read "mods" (read "response" (read "nyplAPI" body))
        /\ (nyplAPI <- member "nyplAPI" body ;;
            response <- member "response" nyplAPI ;;
            member "mods" response) = inr found).
Proof.
  unfold mods_of, and_also.
  destruct (truthy body) eqn:B; simpl.
  2:{ rewrite B. simpl. rewrite B. exists body.
      rewrite (read_falsy "nyplAPI" _ B), B. split; [done|]. by split. }
  rewrite (member_truthy _ _ B). simpl.
  destruct (truthy (read "nyplAPI" body)) eqn:N; simpl.
  2:{ rewrite N. eexists. split; [done|].
      rewrite (read_falsy "response" _ N), N. by split. }
  rewrite (member_truthy _ _ N). simpl.
  destruct (truthy (read "response" (read "nyplAPI" body))) eqn:R; simpl.
  2:{ eexists. split; [done|].
      rewrite (read_falsy "mods" _ R), R. by split. }
  rewrite (member_truthy _ _ R). eexists. by split.
Qed.

(** X21.  The MODS proxy reads the reply of the remote service without
    throwing, whatever the reply is.  Without a configured token it answers
    401; on a transport error 500, with the error as message; when
    [body.nyplAPI.response.mods] can be read and is truthy, the answer is
    [res.send] of that value; in every other case it is the 406 "Cannot
    parse MODS result". *)
Theorem get_mods_answers (DIGITAL_COLLECTIONS_TOKEN : option string)
    (uuid : string) :
  get_mods res_send request DIGITAL_COLLECTIONS_TOKEN uuid
  = match DIGITAL_COLLECTIONS_TOKEN with
    | None | Some "" =>
        Send 401 (JObj [("result", JStr "error");
                        ("message", JStr "Not authorized")])
    | Some token =>
        let reply :=
          request ("http://api.repo.nypl.org/api/v1/items/mods_captures/" ++ uuid)
                  ("Token token=" ++ quote ++ token ++ quote) in
        if truthy reply.1
        then Send 500 (JObj [("result", JStr "error");
                             ("message", default JNull reply.1)])
        else
          match read "mods" (read "response" (read "nyplAPI" reply.2)) with
          | Some mods =>
              if truthy (Some mods) then res_send mods
              else Send 406 (JObj [("result", JStr "error");
                                   ("message", JStr "Cannot parse MODS result")])
          | None =>
              Send 406 (JObj [("result", JStr "error");
                              ("message", JStr "Cannot parse MODS result")])
          end
    end.
Proof.
  unfold get_mods.
  destruct DIGITAL_COLLECTIONS_TOKEN as [[|a token]|]; [done| |done].
  cbn [truthy String.eqb negb]. cbv zeta.
  set (reply := request _ _).
  destruct (truthy reply.1); [done|].
  destruct (mods_of_found reply.2) as (found & -> & T & F).
  destruct (truthy found) eqn:X.
  - destruct (F eq_refl) as [E ->]. rewrite <- E.
    destruct found as [mods|]; [|discriminate].
    change (res_send mods
            = if truthy (Some mods) then res_send mods
              else Send 406 (JObj [("result", JStr "error");
                                   ("message", JStr "Cannot parse MODS result")])).
    by rewrite X.
  - destruct (read "mods" _) as [mods|]; [|done].
    change (Send 406 (JObj [("result", JStr "error");
                            ("message", JStr "Cannot parse MODS result")])
            = if truthy (Some mods) then res_send mods
              else Send 406 (JObj [("result", JStr "error");
                                   ("message", JStr "Cannot parse MODS result")])).
    by rewrite <- T.
Qed.

End Mods_answers.

(** ** The further properties at work *)

Lemma submit_touches_its_triple_only_witness :
  let o := submit (platform := Reference.platform) Samples.two_sessions_server
             None 2 "abc-123" Examples.session Examples.completed_feature
             Examples.ip in
  response o = success
  /\ Pg.completed <$> locations Samples.two_sessions_server !! Examples.key
     = Some false
  /\ Pg.completed <$> store o !! Examples.key = Some true
  /\ locations Samples.two_sessions_server !! Samples.other_session_key
     = Some (Pg.inserted 1 Examples.first_completed)
  /\ store o !! Samples.other_session_key
     = locations Samples.two_sessions_server !! Samples.other_session_key.
Proof.
  split; [vm_compute; reflexivity|].
  split; [vm_compute; reflexivity|].
  split; [vm_compute; reflexivity|].
  split; [vm_compute; reflexivity|].
  apply (submit_touches_its_triple_only (platform := Reference.platform)).
  intros s st Hs Hst. injection Hs as <-. discriminate.
Defined.

Lemma completed_submission_is_stored_witness :
  exists s st v index c,
    text_param (platform := Reference.platform) Examples.session = Some s
    /\ text_param (platform := Reference.platform)
         (read "step" (read "properties" (Some Examples.completed_feature)))
       = Some st
    /\ read "stepIndex" (read "properties" (Some Examples.completed_feature))
       = Some v
    /\ pg_integer (Platform := Reference.platform) v = inr index
    /\ store (submit (platform := Reference.platform) Examples.fresh_server
                None 1 "abc-123" Examples.session Examples.completed_feature
                Examples.ip) !! ("abc-123", s, st) = Some c
    /\ Pg.completed c = true
    /\ Pg.step_index c = index
    /\ Pg.data c
       = read "data" (read "properties" (Some Examples.completed_feature))
    /\ Pg.geometry c
       = (if truthy (read "geometry" (Some Examples.completed_feature))
          then read "geometry" (Some Examples.completed_feature) else None)
    /\ Pg.client c = Some (object [("ip", Examples.ip)])
    /\ Pg.date_modified c = 1.
Proof.
  apply (completed_submission_is_stored (platform := Reference.platform)
           Examples.fresh_server None 1 "abc-123" Examples.session
           Examples.completed_feature Examples.ip).
  - vm_compute. reflexivity.
  - reflexivity.
Defined.

Lemma null_step_index_is_a_persistence_error_witness :
  ge0 (platform := Reference.platform) (Some JNull) = inr true
  /\ status_of (response (submit (platform := Reference.platform)
                            Examples.fresh_server None 1 "abc-123"
                            Examples.session Samples.null_index_feature
                            Examples.ip)) = Some 500
  /\ store (submit (platform := Reference.platform) Examples.fresh_server None 1
              "abc-123" Examples.session Samples.null_index_feature Examples.ip)
     = locations Examples.fresh_server
  /\ sent (submit (platform := Reference.platform) Examples.fresh_server None 1
             "abc-123" Examples.session Samples.null_index_feature Examples.ip)
     = [].
Proof.
  eapply (null_step_index_is_a_persistence_error (platform := Reference.platform)).
  - reflexivity.
  - reflexivity.
Defined.

Lemma submit_keeps_data_on_completed_rows_witness :
  data_only_when_completed
    (store (submit (platform := Reference.platform) Examples.fresh_server None 1
              "abc-123" Examples.session Examples.located_progress_feature
              Examples.ip)).
Proof.
  apply (submit_keeps_data_on_completed_rows (platform := Reference.platform)).
  intros k c L. simpl in L. by rewrite lookup_empty in L.
Defined.

Lemma post_needs_a_verified_credential_witness :
  post_request (platform := Reference.platform) Samples.error_page Examples.KEY
    Examples.fresh_server None 1 None "abc-123"
    (Json Examples.completed_feature) Examples.ip
  = {| response := Send 401 (JObj [("result", JStr "error");
                                   ("message", JStr "Not authorized")]);
       store := locations Examples.fresh_server;
       sent := [] |}
  /\ post_request (platform := Reference.platform) Samples.error_page
       Examples.KEY Examples.fresh_server None 1 (Some "forged") "abc-123"
       (Json JNull) Examples.ip
     = {| response := Send 400 (JStr "Bad Request");
          store := locations Examples.fresh_server;
          sent := [] |}.
Proof.
  split.
  - apply (post_needs_a_verified_credential (platform := Reference.platform)
             Examples.fresh_server None 1 "abc-123" Examples.ip
             Samples.error_page Examples.KEY None
             (Json Examples.completed_feature)).
    left. reflexivity.
  - apply (post_needs_a_verified_credential (platform := Reference.platform)
             Examples.fresh_server None 1 "abc-123" Examples.ip
             Samples.error_page Examples.KEY (Some "forged") (Json JNull)).
    right. right. exists "forged". split; [reflexivity|]. vm_compute. reflexivity.
Defined.

Lemma issued_credential_is_accepted_witness :
  checkOrCreateToken (platform := Reference.platform) Examples.KEY
    (Some (checkOrCreateToken (platform := Reference.platform) Examples.KEY
             None "fresh")) "later"
  = checkOrCreateToken (platform := Reference.platform) Examples.KEY None "fresh"
  /\ checkToken (platform := Reference.platform) Examples.KEY
       (Some (checkOrCreateToken (platform := Reference.platform) Examples.KEY
                None "fresh"))
     = inr (Some (JStr "fresh"))
  /\ post_item (platform := Reference.platform) Examples.KEY
       Examples.fresh_server None 1
       (Some (checkOrCreateToken (platform := Reference.platform) Examples.KEY
                None "fresh"))
       "abc-123" Examples.completed_feature Examples.ip
     = submit (platform := Reference.platform) Examples.fresh_server None 1
         "abc-123" (Some (JStr "fresh")) Examples.completed_feature Examples.ip.
Proof.
  apply (issued_credential_is_accepted (platform := Reference.platform)
           Examples.fresh_server None 1 "abc-123" Examples.completed_feature
           Examples.ip Examples.KEY "fresh" "later"
           (JObj [("session", JStr "fresh")])).
  - vm_compute. discriminate.
  - vm_compute. reflexivity.
  - reflexivity.
Defined.

Lemma loaded_items_are_catalog_entries_witness :
  "abc-123" <> "__proto__"
  /\ catalog_entry (platform := Reference.platform) Samples.no_Array_includes
       Samples.flat "abc-123"
       (JObj [ ("uuid", JStr "abc-123"); ("imageID", JStr "1234");
               ("imageLink",
                 JStr "http://images.nypl.org/index.php?id=1234&t=w&x");
               ("collection", JStr "c-1") ]).
Proof.
  apply (proj1 (loaded_items_are_catalog_entries (platform := Reference.platform)
                  Samples.no_Array_includes Samples.flat
                  {| entries := Samples.loaded; prototype := None |}
                  ltac:(vm_compute; reflexivity))).
  apply lookup_singleton_eq.
Defined.

(** ** First submissions and resubmissions *)

Section Resubmission.
Context {platform : Platform}.
Variables (srv : Server) (fault : option string) (now : Z).
Variables (uuid : string) (session : Value) (feature : JSON) (ip : Value).

(** X22.  The first accepted submission for a triple is stored as
    submitted, completed or not: the new row holds the submitted
    [completed] flag, the [imageID] of the catalog's item (not a value of
    the request), the client's address, and the time of the commit as both
    [date_created] and [date_modified]. *)
Theorem first_submission_is_stored (s st : string) :
  status_of (response (submit srv fault now uuid session feature ip)) = Some 200 ->
  text_param session = Some s ->
  text_param (read "step" (read "properties" (Some feature))) = Some st ->
  locations srv !! (uuid, s, st) = None ->
  exists c,
    store (submit srv fault now uuid session feature ip) !! (uuid, s, st) = Some c
    /\ Pg.completed c
       = truthy (read "completed" (read "properties" (Some feature)))
    /\ Pg.image_id c = text_param (read "imageID" (items srv !! uuid))
    /\ Pg.client c = Some (object [("ip", ip)])
    /\ Pg.date_created c = now
    /\ Pg.date_modified c = now
    /\ size (store (submit srv fault now uuid session feature ip))
       = S (size (locations srv)).
Proof.
  intros S Es Est A.
  destruct (submit_success_commit srv fault now uuid session feature ip S)
    as (x & located & Q & Eu & Es' & Est' & _ & Em & Ec & _ & Ecl & _).
  assert (K : Pg.x_pkey x = (uuid, s, st)).
  { unfold Pg.x_pkey. rewrite Eu. congruence. }
  rewrite <- K in A. rewrite (commitStep_absent now x _ A) in Q.
  injection Q as Q. rewrite <- Q, <- K.
  eexists. split; [apply lookup_insert_eq|]. simpl.
  repeat split; try done. by apply map_size_insert_None.
Qed.

(** X23.  A 200 does not mean the record was stored: a submission that is
    not completed, for a triple that already has a row, is acknowledged and
    broadcast like any other, and the table is left exactly as it was. *)
Theorem in_progress_resubmission_is_not_stored (s st : string) (old : Pg.columns) :
  status_of (response (submit srv fault now uuid session feature ip)) = Some 200 ->
  truthy (read "completed" (read "properties" (Some feature))) = false ->
  text_param session = Some s ->
  text_param (read "step" (read "properties" (Some feature))) = Some st ->
  locations srv !! (uuid, s, st) = Some old ->
  store (submit srv fault now uuid session feature ip) = locations srv
  /\ length (sent (submit srv fault now uuid session feature ip))
     = length (clients srv).
Proof.
  intros S C Es Est A. split.
  - destruct (submit_success_commit srv fault now uuid session feature ip S)
      as (x & located & Q & Eu & Es' & Est' & _ & _ & Ec & _).
    assert (K : Pg.x_pkey x = (uuid, s, st)).
    { unfold Pg.x_pkey. rewrite Eu. congruence. }
    rewrite <- K in A. rewrite C in Ec.
    rewrite (commitStep_in_progress now x _ old A Ec) in Q. by injection Q.
  - apply submit_success_inv in S as (row & data & geometry & db & _ & _ & ->).
    simpl. unfold emitEvent, broadcast. by rewrite length_map.
Qed.

End Resubmission.

Lemma first_submission_is_stored_witness :
  exists c,
    store (submit (platform := Reference.platform) Examples.fresh_server None 1
             "abc-123" Examples.session Examples.progress_feature Examples.ip)
      !! ("abc-123", "s1", "locate") = Some c
    /\ Pg.completed c
       = truthy (read "completed"
                   (read "properties" (Some Examples.progress_feature)))
    /\ Pg.image_id c
       = text_param (platform := Reference.platform)
           (read "imageID" (items Examples.fresh_server !! "abc-123"))
    /\ Pg.client c = Some (object [("ip", Examples.ip)])
    /\ Pg.date_created c = 1
    /\ Pg.date_modified c = 1
    /\ size (store (submit (platform := Reference.platform)
                      Examples.fresh_server None 1 "abc-123" Examples.session
                      Examples.progress_feature Examples.ip))
       = S (size (locations Examples.fresh_server)).
Proof.
  apply (first_submission_is_stored (platform := Reference.platform)
           Examples.fresh_server None 1 "abc-123" Examples.session
           Examples.progress_feature Examples.ip "s1" "locate").
  - vm_compute. reflexivity.
  - reflexivity.
  - reflexivity.
  - reflexivity.
Defined.

Lemma in_progress_resubmission_is_not_stored_witness :
  store (submit (platform := Reference.platform) Examples.progress_server None 2
           "abc-123" Examples.session Examples.progress_feature Examples.ip)
  = locations Examples.progress_server
  /\ length (sent (submit (platform := Reference.platform)
                     Examples.progress_server None 2 "abc-123" Examples.session
                     Examples.progress_feature Examples.ip))
     = length (clients Examples.progress_server).
Proof.
  apply (in_progress_resubmission_is_not_stored (platform := Reference.platform)
           Examples.progress_server None 2 "abc-123" Examples.session
           Examples.progress_feature Examples.ip "s1" "locate"
           (Pg.inserted 1 Examples.first_progress)).
  - vm_compute. reflexivity.
  - reflexivity.
  - reflexivity.
  - reflexivity.
  - apply lookup_singleton_eq.
Defined.
